(** * CodeValidator: a shallow embedding of [CodeValidator.cpp]

    The development follows the source file from the leaves up:
    - [std::string] is a Rocq [string] (a sequence of 8-bit characters);
    - [std::wstring] and [wchar_t] buffers are lists of UTF-16 code units;
    - C++ exceptions are an explicit [result] type, which also has a case
      for a call that never returns; code that touches the operating system
      runs in a small state-and-exception monad [M];
    - the operating system and [std::filesystem] are a [Platform] record
      that the validators are written against;
    - the [LanguageValidator] class hierarchy is a record of methods with
      one value per subclass;
    - [validateCode] and the thread it starts are a transition system over
      the two globals [g_mutex] and [g_validationInProgress]. *)

From Stdlib Require Import String Ascii List Arith NArith Lia Bool.
From Equations Require Import Equations.
From Equations.Prop Require Import Logic.
From stdpp Require Import base list strings.
Import ListNotations.
Open Scope string_scope.
Open Scope list_scope.

#[local] Arguments String.append : simpl nomatch.

(** ** Characters and string primitives *)

Definition backslash : ascii := "092"%char.
Definition dquote : ascii := "034"%char.
Definition newline : ascii := "010"%char.

(** The one-character strings holding a backslash and a double quote, the
    two-backslash replacement text, and the line feed. *)
Definition str_backslash : string := String backslash EmptyString.
Definition str_backslash2 : string := String backslash (String backslash EmptyString).
Definition str_dquote : string := String dquote EmptyString.
Definition nl : string := String newline EmptyString.

(** ** Exceptions *)

(** What a [catch] clause of the source can tell apart: an exception derived
    from [std::exception], with its [what()] text, or anything else. *)
Inductive exn : Type :=
| StdException (what : string)
| OtherException.

(** What a call can do: return a value, throw, or never return. *)
Inductive result (A : Type) : Type :=
| Ok (a : A)
| Throw (e : exn)
| Hang.
Arguments Ok {A} a.
Arguments Throw {A} e.
Arguments Hang {A}.

(** ** [std::string] operations used by the source *)

(** [s.empty()] *)
Definition empty (s : string) : bool :=
  match s with
  | EmptyString => true
  | String _ _ => false
  end.

(** [s.find(needle, pos)]; [None] stands for [std::string::npos]. *)
Definition find (s needle : string) (pos : nat) : option nat :=
  index pos needle s.

(** [s.find(needle) != std::string::npos] *)
Definition contains (s needle : string) : bool :=
  match find s needle 0 with
  | Some _ => true
  | None => false
  end.

(** [s.replace(pos, len, r)]: throws [std::out_of_range] when [pos] is past
    the end, otherwise replaces the (clipped) range by [r]. *)
Definition replace (s : string) (pos len : nat) (r : string) : result string :=
  if (String.length s <? pos)%nat
  then Throw (StdException "invalid string position")
  else Ok (substring 0 pos s +:+ r
           +:+ substring (pos + len) (String.length s - (pos + len)) s).

(** Facts about [index], [append] and [substring] that the termination of
    the escaping loop rests on. *)

Lemma index_bounds (needle s : string) :
  needle <> EmptyString ->
  forall pos p, index pos needle s = Some p -> pos <= p < String.length s.
Proof.
  intros Hne. induction s as [|c s IH]; intros pos p H.
  - destruct pos; cbn in H; [destruct needle; congruence | discriminate].
  - destruct pos; cbn [index] in H.
    + destruct (String.prefix needle (String c s)).
      * injection H as <-. cbn. lia.
      * destruct (index 0 needle s) eqn:E; [|discriminate].
        injection H as <-. apply IH in E. cbn. lia.
    + destruct (index pos needle s) eqn:E; [|discriminate].
      injection H as <-. apply IH in E. cbn. lia.
Qed.

Lemma length_append (s t : string) :
  String.length (s +:+ t) = String.length s + String.length t.
Proof. induction s as [|c s IH]; simpl; [reflexivity | f_equal; exact IH]. Qed.

Lemma length_substring (s : string) :
  forall n m, n + m <= String.length s -> String.length (substring n m s) = m.
Proof.
  induction s as [|c s IH]; intros n m H; cbn in *.
  - destruct n, m; cbn in *; try lia; reflexivity.
  - destruct n.
    + destruct m; cbn; auto. rewrite (IH 0 m); cbn; lia.
    + apply IH. lia.
Qed.

Lemma replace_length (s : string) (pos : nat) (r s' : string) :
  replace s pos 1 r = Ok s' ->
  pos < String.length s ->
  String.length s' = String.length s - 1 + String.length r.
Proof.
  unfold replace. intros H Hlt.
  destruct (String.length s <? pos)%nat; [discriminate|].
  injection H as <-.
  rewrite !length_append, !length_substring by lia. lia.
Qed.

(** ** [LanguageValidator::escapeFilePath] *)

(** The [while] loop: search the next backslash from [pos], replace that one
    character by two, and resume two characters further. *)
Equations? escape_loop (escaped : string) (pos : nat) : result string
  by wf (String.length escaped - pos) lt :=
  escape_loop escaped pos with inspect (find escaped str_backslash pos) := {
    | exist _ (Some p) Hfind
        with inspect (replace escaped p 1 str_backslash2) := {
        | exist _ (Ok escaped') Hrep => escape_loop escaped' (p + 2)
        | exist _ (Throw e) Hrep => Throw e
        | exist _ Hang Hrep => Hang };
    | exist _ None Hfind => Ok escaped }.
Proof.
  apply index_bounds in Hfind; [|discriminate].
  apply replace_length in Hrep; [|lia].
  rewrite Hrep. cbn. lia.
Qed.

Definition escapeFilePath (filePath : string) : result string :=
  match escape_loop filePath 0 with
  | Ok escaped => Ok (str_dquote +:+ escaped +:+ str_dquote)
  | Throw e => Throw e
  | Hang => Hang
  end.

(** The specification's wording of the same function: every backslash is
    doubled, and the whole is wrapped in one leading and one trailing double
    quote. *)
Fixpoint double_backslashes (s : string) : string :=
  match s with
  | EmptyString => EmptyString
  | String c s' =>
      if Ascii.eqb c backslash
      then String backslash (String backslash (double_backslashes s'))
      else String c (double_backslashes s')
  end.

Definition escape_spec (path : string) : string :=
  String dquote (double_backslashes path +:+ str_dquote).

(** [no_backslash s]: the character does not occur in [s]. *)
Fixpoint no_backslash (s : string) : bool :=
  match s with
  | EmptyString => true
  | String c s' => negb (Ascii.eqb c backslash) && no_backslash s'
  end.

(** The C string that starts at the first character of a buffer: its
    characters up to the first NUL, which is what [result += buffer.data()]
    appends. *)
Fixpoint c_str (buffer : string) : string :=
  match buffer with
  | EmptyString => EmptyString
  | String c buffer' =>
      if Ascii.eqb c "000"%char then EmptyString else String c (c_str buffer')
  end.

(** ** The platform: [std::filesystem] and the C runtime *)

(** What [_popen] followed by the [fgets] loop can do: fail to start the
    command ([_popen] returns a null pointer), yield the chunks that the
    successive [fgets] calls read until the stream ends, raise while the
    text is accumulated (an allocation failure in [result += ...]), or
    never end, when the command never exits and so never closes its end of
    the pipe (there is no timeout). *)
Inductive pipe : Type :=
| PipeNull
| PipeChunks (chunks : list string)
| PipeThrows (e : exn)
| PipeHangs.

(** The library and operating-system services the source calls.  The three
    path projections are [std::filesystem::path(p).extension().string()],
    [.stem().string()] and [.parent_path().string()]; [fs_exists] is
    [std::filesystem::exists], which may throw (or, on a drive that does
    not answer, never return); [popen] runs a command line in the current
    state of the machine. *)
Record Platform : Type := {
  World : Type;
  path_extension : string -> string;
  path_stem : string -> string;
  path_parent_path : string -> string;
  fs_exists : string -> World -> result bool;
  popen : string -> World -> pipe * World
}.

Section Validators.

Variable P : Platform.

(** The state a validation job runs in: the machine, and the log of the
    command lines handed to [_popen] so far. *)
Record Sys : Type := {
  world : World P;
  launched : list string
}.

(** Stateful code that may throw or never return; the state that comes
    with [Hang] is the one in which the call stays. *)
Definition M (A : Type) : Type := Sys -> result A * Sys.

Definition ret {A : Type} (a : A) : M A := fun s => (Ok a, s).

Definition bind {A B : Type} (m : M A) (k : A -> M B) : M B :=
  fun s =>
    match m s with
    | (Ok a, s') => k a s'
    | (Throw e, s') => (Throw e, s')
    | (Hang, s') => (Hang, s')
    end.

Definition lift {A : Type} (r : result A) : M A := fun s => (r, s).

(** [try { m } catch (...) { h e }] *)
Definition try_catch {A : Type} (m : M A) (h : exn -> M A) : M A :=
  fun s =>
    match m s with
    | (Ok a, s') => (Ok a, s')
    | (Throw e, s') => h e s'
    | (Hang, s') => (Hang, s')
    end.

Notation "'do' x <- m ; k" := (bind m (fun x => k))
  (at level 10, x name, m at level 100, k at level 200).

(** [std::filesystem::exists(filePath)] *)
Definition exists_ (filePath : string) : M bool :=
  fun s => (fs_exists P filePath (world s), s).

(** ** [LanguageValidator::executeCommand] *)

(** The [while (fgets ...) result += buffer.data()] loop over the chunks:
    each chunk is what one [fgets] call put into the buffer, and it is
    appended as a C string. *)
Definition read_all (chunks : list string) : string :=
  fold_left (fun result chunk => result +:+ c_str chunk) chunks EmptyString.

Definition executeCommand (command : string) : M string :=
  fun s =>
    let (p, w) := popen P command (world s) in
    let s' := {| world := w; launched := launched s ++ [command] |} in
    match p with
    | PipeNull => (Ok ("Error executing command: " +:+ command), s')
    | PipeChunks chunks => (Ok (read_all chunks), s')
    | PipeThrows e => (Throw e, s')
    | PipeHangs => (Hang, s')
    end.

(** ** The validators *)

(** The abstract class: its two virtual methods. *)
Record LanguageValidator : Type := {
  validate : string -> M string;
  isCompatible : string -> bool
}.

Definition success_banner : string :=
  "Compilation successful." +:+ nl +:+ "Execution output:" +:+ nl.

Definition JavaValidator : LanguageValidator := {|
  isCompatible filePath := String.eqb (path_extension P filePath) ".java";
  validate filePath :=
    let className := path_stem P filePath in
    let directory := path_parent_path P filePath in
    do escaped <- lift (escapeFilePath filePath);
    let compileCommand := "javac " +:+ escaped +:+ " 2>&1" in
    do compileResult <- executeCommand compileCommand;
    if negb (empty compileResult)
    then ret ("Compilation errors:" +:+ nl +:+ compileResult)
    else
      do escapedDir <- lift (escapeFilePath directory);
      let runCommand :=
        "cd " +:+ escapedDir +:+ " && java " +:+ className +:+ " 2>&1" in
      do runResult <- executeCommand runCommand;
      ret (success_banner +:+ runResult)
|}.

Definition PythonValidator : LanguageValidator := {|
  isCompatible filePath := String.eqb (path_extension P filePath) ".py";
  validate filePath :=
    do escaped <- lift (escapeFilePath filePath);
    let syntaxCommand := "python -m py_compile " +:+ escaped +:+ " 2>&1" in
    do syntaxResult <- executeCommand syntaxCommand;
    if negb (empty syntaxResult) && contains syntaxResult "SyntaxError"
    then ret ("Syntax errors:" +:+ nl +:+ syntaxResult)
    else
      do escaped' <- lift (escapeFilePath filePath);
      let runCommand := "python " +:+ escaped' +:+ " 2>&1" in
      do runResult <- executeCommand runCommand;
      ret (success_banner +:+ runResult)
|}.

Definition PHPValidator : LanguageValidator := {|
  isCompatible filePath := String.eqb (path_extension P filePath) ".php";
  validate filePath :=
    do escaped <- lift (escapeFilePath filePath);
    let syntaxCommand := "php -l " +:+ escaped +:+ " 2>&1" in
    do syntaxResult <- executeCommand syntaxCommand;
    if negb (contains syntaxResult "No syntax errors")
    then ret ("Syntax errors:" +:+ nl +:+ syntaxResult)
    else
      do escaped' <- lift (escapeFilePath filePath);
      let runCommand := "php " +:+ escaped' +:+ " 2>&1" in
      do runResult <- executeCommand runCommand;
      ret (success_banner +:+ runResult)
|}.

Definition JavaScriptValidator : LanguageValidator := {|
  isCompatible filePath := String.eqb (path_extension P filePath) ".js";
  validate filePath :=
    do escaped <- lift (escapeFilePath filePath);
    let checkCommand := "node --check " +:+ escaped +:+ " 2>&1" in
    do checkResult <- executeCommand checkCommand;
    if negb (empty checkResult)
    then ret ("Syntax errors:" +:+ nl +:+ checkResult)
    else
      do escaped' <- lift (escapeFilePath filePath);
      let runCommand := "node " +:+ escaped' +:+ " 2>&1" in
      do runResult <- executeCommand runCommand;
      ret (success_banner +:+ runResult)
|}.

(** ** [getValidator] *)

(** [None] is the null pointer. *)
Definition getValidator (language filePath : string) : option LanguageValidator :=
  if String.eqb language "Auto-detect" then
    let extension := path_extension P filePath in
    if String.eqb extension ".java" then Some JavaValidator
    else if String.eqb extension ".py" then Some PythonValidator
    else if String.eqb extension ".php" then Some PHPValidator
    else if String.eqb extension ".js" then Some JavaScriptValidator
    else None
  else if String.eqb language "Java" then Some JavaValidator
  else if String.eqb language "Python" then Some PythonValidator
  else if String.eqb language "PHP" then Some PHPValidator
  else if String.eqb language "JavaScript" then Some JavaScriptValidator
  else None.

(** ** The validation thread of [validateCode] *)

(** The body of the [try] block. *)
Definition validation_try (filePath language : string) : M string :=
  if empty filePath
  then ret "Please select a file to validate."
  else
    do found <- exists_ filePath;
    if negb found
    then ret ("File does not exist: " +:+ filePath)
    else
      match getValidator language filePath with
      | None => ret "Unsupported file type or language selection."
      | Some validator =>
          if negb (isCompatible validator filePath)
          then ret "Selected language doesn't match the file extension."
          else validate validator filePath
      end.

(** The two [catch] clauses. *)
Definition validation_catch (e : exn) : M string :=
  match e with
  | StdException what => ret ("Error occurred during validation: " +:+ what)
  | OtherException => ret "Unknown error occurred during validation."
  end.

(** The [try]/[catch] statement: the text in [result] when it is left. *)
Definition validation_result (filePath language : string) : M string :=
  try_catch (validation_try filePath language) validation_catch.

End Validators.

Arguments world {P} s.
Arguments launched {P} s.
Arguments ret {P A} a.
Arguments bind {P A B} m k.
Arguments lift {P A} r.
Arguments try_catch {P A} m h.
Arguments validate {P} l.
Arguments isCompatible {P} l.

(** Every call to the machine returns: no command runs for ever and the
    existence test always answers. *)
Definition terminating (P : Platform) : Prop :=
  (forall command w, fst (popen P command w) <> PipeHangs)
  /\ (forall filePath w, fs_exists P filePath w <> Hang).

(** ** The outcome classes of the specification *)

Inductive Status : Type :=
| Success
| CompileError
| RuntimeOutput
| SelectionError
| SystemError.

(** Modelled from the spec: the status of a [ValidationOutcome].  The source
    has no such field, the delivered outcome is the text alone; the
    specification names the class of each message by its wording (request
    shape and failures caught at the job boundary are [SystemError], the two
    selection messages are [SelectionError], a check-phase message is
    [CompileError], the success banner is [RuntimeOutput]). *)
Definition outcome_status (message : string) : option Status :=
  if String.eqb message "Please select a file to validate." then Some SystemError
  else if String.prefix "File does not exist: " message then Some SystemError
  else if String.prefix "Error occurred during validation: " message then Some SystemError
  else if String.eqb message "Unknown error occurred during validation." then Some SystemError
  else if String.eqb message "Unsupported file type or language selection." then Some SelectionError
  else if String.eqb message "Selected language doesn't match the file extension." then Some SelectionError
  else if String.prefix "Compilation errors:" message then Some CompileError
  else if String.prefix "Syntax errors:" message then Some CompileError
  else if String.prefix "Compilation successful." message then Some RuntimeOutput
  else None.

(** ** [validateCode]: the two threads and the shared flag *)

Inductive thread : Type :=
| UiThread
| Worker (i : nat).

(** Where the window thread is inside [validateCode]. *)
Inductive ui_pc : Type :=
| UiIdle          (* in the message loop *)
| UiEnter         (* validateCode called, about to take the lock_guard *)
| UiLocked        (* holds g_mutex, about to test the flag *)
| UiMessageBox    (* flag was set: shows the message box, still in the guard *)
| UiFlagSet       (* flag was clear and is now set, still in the guard *)
| UiReady.        (* guard released; reads the controls and starts the thread *)

(** Where a validation thread is in its lambda. *)
Inductive worker_pc : Type :=
| WStart (filePath language : string)   (* about to run the try block *)
| WHung                                  (* in fgets on a command that never exits *)
| WResult (result : string)              (* result computed, about to SendMessage *)
| WSent                                  (* outcome shown, about to lock g_mutex *)
| WLocked                                (* holds g_mutex, about to clear the flag *)
| WCleared                               (* flag cleared, guard not yet released *)
| WDone.

Record Global (P : Platform) : Type := {
  g_mutex : option thread;
  g_validationInProgress : bool;
  ui : ui_pc;
  workers : list worker_pc;
  sys : Sys P;
  shown : list (nat * string)
}.
Arguments g_mutex {P} g.
Arguments g_validationInProgress {P} g.
Arguments ui {P} g.
Arguments workers {P} g.
Arguments sys {P} g.
Arguments shown {P} g.

Section Job.

Variable P : Platform.

Definition set_mutex (m : option thread) (g : Global P) : Global P :=
  {| g_mutex := m; g_validationInProgress := g_validationInProgress g;
     ui := ui g; workers := workers g; sys := sys g; shown := shown g |}.

Definition set_flag (b : bool) (g : Global P) : Global P :=
  {| g_mutex := g_mutex g; g_validationInProgress := b;
     ui := ui g; workers := workers g; sys := sys g; shown := shown g |}.

Definition set_ui (u : ui_pc) (g : Global P) : Global P :=
  {| g_mutex := g_mutex g; g_validationInProgress := g_validationInProgress g;
     ui := u; workers := workers g; sys := sys g; shown := shown g |}.

Definition set_workers (ws : list worker_pc) (g : Global P) : Global P :=
  {| g_mutex := g_mutex g; g_validationInProgress := g_validationInProgress g;
     ui := ui g; workers := ws; sys := sys g; shown := shown g |}.

Definition set_sys (s : Sys P) (g : Global P) : Global P :=
  {| g_mutex := g_mutex g; g_validationInProgress := g_validationInProgress g;
     ui := ui g; workers := workers g; sys := s; shown := shown g |}.

Definition set_shown (l : list (nat * string)) (g : Global P) : Global P :=
  {| g_mutex := g_mutex g; g_validationInProgress := g_validationInProgress g;
     ui := ui g; workers := workers g; sys := sys g; shown := l |}.

Definition set_worker (i : nat) (pc : worker_pc) (g : Global P) : Global P :=
  set_workers (<[i := pc]> (workers g)) g.

(** Start of the program: the flag is clear, nobody holds the mutex. *)
Definition init (w : World P) : Global P :=
  {| g_mutex := None; g_validationInProgress := false; ui := UiIdle;
     workers := []; sys := {| world := w; launched := [] |}; shown := [] |}.

(** What the scheduler and the user can do next: press Validate, let the
    window thread take its next step (with the texts that the two controls
    hold at that time), or let validation thread [i] take its next step. *)
Inductive action : Type :=
| Validate
| Ui (filePath language : string)
| Wk (i : nat).

Definition actor (a : action) : thread :=
  match a with
  | Validate | Ui _ _ => UiThread
  | Wk i => Worker i
  end.

(** The window thread dispatches sent messages while it is in its message
    loop or in the modal loop of the message box. *)
Definition pumping (u : ui_pc) : bool :=
  match u with
  | UiIdle | UiMessageBox => true
  | _ => false
  end.

(** One atomic step; [None] when the step is not enabled (a thread blocked
    on the mutex or on [SendMessage], a thread reading from a command that
    never exits, a finished thread). *)
Definition step (a : action) (g : Global P) : option (Global P) :=
  match a with
  | Validate =>
      match ui g with
      | UiIdle => Some (set_ui UiEnter g)
      | _ => None
      end
  | Ui filePath language =>
      match ui g with
      | UiIdle => None
      | UiEnter =>
          match g_mutex g with
          | None => Some (set_ui UiLocked (set_mutex (Some UiThread) g))
          | Some _ => None
          end
      | UiLocked =>
          if g_validationInProgress g
          then Some (set_ui UiMessageBox g)
          else Some (set_ui UiFlagSet (set_flag true g))
      | UiMessageBox => Some (set_ui UiIdle (set_mutex None g))
      | UiFlagSet => Some (set_ui UiReady (set_mutex None g))
      | UiReady =>
          Some (set_ui UiIdle
                  (set_workers (workers g ++ [WStart filePath language]) g))
      end
  | Wk i =>
      match workers g !! i with
      | None => None
      | Some (WStart filePath language) =>
          let (r, s') := validation_result P filePath language (sys g) in
          match r with
          | Ok result => Some (set_worker i (WResult result) (set_sys s' g))
          | Throw _ => None   (* std::terminate *)
          | Hang => Some (set_worker i WHung (set_sys s' g))
          end
      | Some (WResult result) =>
          if pumping (ui g)
          then Some (set_worker i WSent
                       (set_shown (shown g ++ [(i, result)]) g))
          else None
      | Some WSent =>
          match g_mutex g with
          | None => Some (set_worker i WLocked (set_mutex (Some (Worker i)) g))
          | Some _ => None
          end
      | Some WLocked => Some (set_worker i WCleared (set_flag false g))
      | Some WCleared => Some (set_worker i WDone (set_mutex None g))
      | Some WHung => None
      | Some WDone => None
      end
  end.

Fixpoint run (tr : list action) (g : Global P) : option (Global P) :=
  match tr with
  | [] => Some g
  | a :: tr' =>
      match step a g with
      | Some g' => run tr' g'
      | None => None
      end
  end.

Definition reachable (g : Global P) : Prop :=
  exists w tr, run tr (init w) = Some g.

(** The number of outcomes that validation thread [i] has delivered. *)
Definition deliveries (i : nat) (l : list (nat * string)) : nat :=
  length (filter (fun x => fst x = i) l).

(** The thread about to move is at a statement that reads or writes
    [g_validationInProgress]. *)
Definition accesses_flag (a : action) (g : Global P) : bool :=
  match a with
  | Validate => false
  | Ui _ _ => match ui g with UiLocked => true | _ => false end
  | Wk i => match workers g !! i with Some WLocked => true | _ => false end
  end.

Definition finished (pc : worker_pc) : bool :=
  match pc with WDone => true | _ => false end.

Definition holds_lock (pc : worker_pc) : bool :=
  match pc with WLocked | WCleared => true | _ => false end.

Definition ui_holds_lock (u : ui_pc) : bool :=
  match u with UiLocked | UiMessageBox | UiFlagSet => true | _ => false end.

Definition processing (pc : worker_pc) : bool :=
  match pc with
  | WStart _ _ | WHung | WResult _ | WSent | WLocked => true
  | _ => false
  end.

Definition starting (u : ui_pc) : bool :=
  match u with UiFlagSet | UiReady => true | _ => false end.

Definition delivered_by (pc : worker_pc) : nat :=
  match pc with WStart _ _ | WHung | WResult _ => 0 | _ => 1 end.

(** What holds of every state the program can be in. *)
Record Inv (g : Global P) : Prop := {
  inv_ui_lock :
    ui_holds_lock (ui g) = true <-> g_mutex g = Some UiThread;
  inv_worker_lock :
    forall i, g_mutex g = Some (Worker i)
              <-> exists pc, workers g !! i = Some pc /\ holds_lock pc = true;
  inv_one :
    forall i j pi pj,
      workers g !! i = Some pi -> workers g !! j = Some pj ->
      finished pi = false -> finished pj = false -> i = j;
  inv_flag :
    forall i pc, workers g !! i = Some pc -> processing pc = true ->
                 g_validationInProgress g = true;
  inv_cleared :
    forall i, workers g !! i = Some WCleared -> g_validationInProgress g = false;
  inv_starting :
    starting (ui g) = true ->
    g_validationInProgress g = true
    /\ forall i pc, workers g !! i = Some pc -> finished pc = true;
  inv_shown :
    forall i, deliveries i (shown g)
              = match workers g !! i with
                | Some pc => delivered_by pc
                | None => 0
                end
}.

(** Validation thread [i] reads from a command that never exits, or is
    about to start one: its [fgets] loop at lines 52 to 55 has no end. *)
Definition stuck (g : Global P) (i : nat) : Prop :=
  workers g !! i = Some WHung
  \/ exists filePath language s',
       workers g !! i = Some (WStart filePath language)
       /\ validation_result P filePath language (sys g) = (Hang, s').

End Job.

Arguments set_mutex {P} m g.
Arguments set_flag {P} b g.
Arguments set_ui {P} u g.
Arguments set_workers {P} ws g.
Arguments set_sys {P} s g.
Arguments set_shown {P} l g.
Arguments set_worker {P} i pc g.
Arguments step {P} a g.
Arguments run {P} tr g.
Arguments reachable {P} g.
Arguments accesses_flag {P} a g.
Arguments Inv {P} g.
Arguments stuck {P} g i.
Arguments inv_ui_lock {P} g _.
Arguments inv_worker_lock {P} g _.
Arguments inv_one {P} g _.
Arguments inv_flag {P} g _.
Arguments inv_cleared {P} g _.
Arguments inv_starting {P} g _.
Arguments inv_shown {P} g _.

(** ** A concrete platform *)

(** [Path]: the decomposition of [std::filesystem::path] on Windows for
    paths whose root name, if any, is a drive letter: both slashes separate
    directories, the file name is what follows the last separator, and the
    extension is the part of the file name from its last dot, unless that
    dot is its first character or the name is one of the two dot entries. *)
Module Path.

Definition is_slash (c : ascii) : bool :=
  Ascii.eqb c "/"%char || Ascii.eqb c backslash.

Definition is_letter (c : ascii) : bool :=
  let n := nat_of_ascii c in
  ((65 <=? n) && (n <=? 90) || (97 <=? n) && (n <=? 122))%nat.

Definition is_dot (c : ascii) : bool := Ascii.eqb c "."%char.

Fixpoint span (p : ascii -> bool) (l : list ascii) : list ascii * list ascii :=
  match l with
  | [] => ([], [])
  | c :: l' =>
      if p c then let (a, b) := span p l' in (c :: a, b) else ([], l)
  end.

Definition root_name_length (l : list ascii) : nat :=
  match l with
  | d :: c :: _ => if is_letter d && Ascii.eqb c ":"%char then 2 else 0
  | _ => 0
  end.

(** The root (root name and root directory) and the relative path. *)
Definition split_root (l : list ascii) : list ascii * list ascii :=
  let n := root_name_length l in
  let (slashes, relative) := span is_slash (drop n l) in
  (take n l ++ slashes, relative).

Definition filename_chars (l : list ascii) : list ascii :=
  let (_, relative) := split_root l in
  rev (fst (span (fun c => negb (is_slash c)) (rev relative))).

Definition extension_chars (name : list ascii) : list ascii :=
  let (after_dot, before) := span (fun c => negb (is_dot c)) (rev name) in
  match before with
  | [] => []                       (* no dot at all *)
  | _ :: [] => []                  (* the only dot leads the name *)
  | _ :: _ =>
      match name with
      | [d1; d2] => if is_dot d1 && is_dot d2 then [] else "."%char :: rev after_dot
      | _ => "."%char :: rev after_dot
      end
  end.

Definition extension (p : string) : string :=
  string_of_list_ascii (extension_chars (filename_chars (list_ascii_of_string p))).

Definition stem (p : string) : string :=
  let name := filename_chars (list_ascii_of_string p) in
  string_of_list_ascii (take (length name - length (extension_chars name)) name).

Definition parent_path (p : string) : string :=
  let (root, relative) := split_root (list_ascii_of_string p) in
  let (_, r1) := span (fun c => negb (is_slash c)) (rev relative) in
  let (_, r2) := span is_slash r1 in
  string_of_list_ascii (root ++ rev r2).

End Path.

(** A machine described by the files it has and by what each command line
    does; running a command does not change it. *)
Definition scripted (files : list string) (tools : string -> pipe) : Platform := {|
  World := unit;
  path_extension := Path.extension;
  path_stem := Path.stem;
  path_parent_path := Path.parent_path;
  fs_exists := fun filePath _ => Ok (bool_decide (filePath ∈ files));
  popen := fun command w => (tools command, w)
|}.

(** No tool can be started. *)
Definition no_tools : string -> pipe := fun _ => PipeNull.

(** Every tool starts and prints nothing. *)
Definition silent_tools : string -> pipe := fun _ => PipeChunks [].

Definition start_sys (P : Platform) (w : World P) : Sys P :=
  {| world := w; launched := [] |}.

(** Tools that accept every file: the check commands of Java, Python and
    JavaScript print nothing, the PHP linter prints its all-clear line, and
    running a program prints a greeting. *)
Definition accepting_tools (command : string) : pipe :=
  if String.prefix "javac " command then PipeChunks []
  else if String.prefix "python -m py_compile " command then PipeChunks []
  else if String.prefix "node --check " command then PipeChunks []
  else if String.prefix "php -l " command
  then PipeChunks ["No syntax errors detected" +:+ nl]
  else PipeChunks ["hi" +:+ nl].

(** Tools that reject every file in the check phase. *)
Definition rejecting_tools (command : string) : pipe :=
  if String.prefix "javac " command
  then PipeChunks ["Main.java:1: error: ';' expected" +:+ nl; "1 error" +:+ nl]
  else if String.prefix "python -m py_compile " command
  then PipeChunks ["  File bad.py, line 1" +:+ nl;
                   "SyntaxError: invalid syntax" +:+ nl]
  else if String.prefix "node --check " command
  then PipeChunks ["SyntaxError: Unexpected token" +:+ nl]
  else if String.prefix "php -l " command
  then PipeChunks ["PHP Parse error: syntax error in bad.php on line 1" +:+ nl]
  else PipeChunks ["hi" +:+ nl].

(** Tools for a program that never ends: the check commands print nothing
    and whatever is run never exits. *)
Definition looping_tools (command : string) : pipe :=
  if String.prefix "javac " command then PipeChunks []
  else if String.prefix "python -m py_compile " command then PipeChunks []
  else if String.prefix "node --check " command then PipeChunks []
  else if String.prefix "php -l " command
  then PipeChunks ["No syntax errors detected" +:+ nl]
  else PipeHangs.

(** A file name holding a double quote, an ampersand, a semicolon and a
    pipe character. *)
Definition hostile_name : string :=
  "a" +:+ str_dquote +:+ " & del x; y | z.py".

(** The four validators side by side: for a given path, the validator, the
    command line of its check phase, the command line of its run phase, and
    the heading it puts before a fatal check output. *)
Definition validator_table (P : Platform) (filePath : string)
  : list (LanguageValidator P * string * string * string) :=
  [(JavaValidator P,
    "javac " +:+ escape_spec filePath +:+ " 2>&1",
    "cd " +:+ escape_spec (path_parent_path P filePath) +:+ " && java "
    +:+ path_stem P filePath +:+ " 2>&1",
    "Compilation errors:");
   (PythonValidator P,
    "python -m py_compile " +:+ escape_spec filePath +:+ " 2>&1",
    "python " +:+ escape_spec filePath +:+ " 2>&1",
    "Syntax errors:");
   (PHPValidator P,
    "php -l " +:+ escape_spec filePath +:+ " 2>&1",
    "php " +:+ escape_spec filePath +:+ " 2>&1",
    "Syntax errors:");
   (JavaScriptValidator P,
    "node --check " +:+ escape_spec filePath +:+ " 2>&1",
    "node " +:+ escape_spec filePath +:+ " 2>&1",
    "Syntax errors:")].

(** A machine where the existence test fails with an access error. *)
Definition locked_disk : Platform := {|
  World := unit;
  path_extension := Path.extension;
  path_stem := Path.stem;
  path_parent_path := Path.parent_path;
  fs_exists := fun _ _ => Throw (StdException "exists: Access is denied.");
  popen := fun command w => (PipeNull, w)
|}.

(** Tools whose output cannot be read: accumulating it throws. *)
Definition throwing_tools (command : string) : pipe :=
  PipeThrows (StdException "bad allocation").

(** The number of backslashes in a path. *)
Fixpoint count_backslashes (s : string) : nat :=
  match s with
  | EmptyString => 0
  | String c s' =>
      (if Ascii.eqb c backslash then 1 else 0) + count_backslashes s'
  end.

(** The outcomes shown so far are those of the first jobs, in the order in
    which the jobs were accepted. *)
Definition in_order {P : Platform} (g : Global P) : Prop :=
  map fst (shown g) = seq 0 (length (shown g))
  /\ length (shown g) <= length (workers g)
  /\ forall i pc, workers g !! i = Some pc ->
                  (delivered_by pc = 1 <-> i < length (shown g)).

(** A machine with one Python file and working tools, the presses and steps
    by which a first job is accepted on it, and the state it is then in. *)
Definition demo : Platform := scripted ["x.py"] accepting_tools.

Definition accept_first : list action :=
  [Validate; Ui EmptyString EmptyString; Ui EmptyString EmptyString;
   Ui EmptyString EmptyString; Ui "x.py" "Python"].

Definition first_accepted : Global demo :=
  {| g_mutex := None; g_validationInProgress := true; ui := UiIdle;
     workers := [WStart "x.py" "Python"];
     sys := start_sys demo tt; shown := [] |}.

(** The state after that first job has run to its end. *)
Definition first_done : Global demo :=
  {| g_mutex := None; g_validationInProgress := false; ui := UiIdle;
     workers := [WDone];
     sys := Build_Sys demo tt
              ["python -m py_compile " +:+ escape_spec "x.py" +:+ " 2>&1";
               "python " +:+ escape_spec "x.py" +:+ " 2>&1"];
     shown := [(0, "Compilation successful." +:+ nl +:+ "Execution output:"
                   +:+ nl +:+ "hi" +:+ nl)] |}.

(** ** The language combo box and [browseForFile] *)

(** A wide string ([std::wstring], a [wchar_t] buffer): its UTF-16 code
    units. *)
Definition wstring : Type := list N.

(** A wide literal of ASCII characters. *)
Definition L (s : string) : wstring := map N_of_ascii (list_ascii_of_string s).

(** What a null-terminated wide buffer holds: the units before the first
    null. *)
Fixpoint wc_str (buffer : wstring) : wstring :=
  match buffer with
  | [] => []
  | u :: buffer' => if (u =? 0)%N then [] else u :: wc_str buffer'
  end.

(** Line 299, [std::string filePath(wFilePath.begin(), wFilePath.end())]:
    every unit is converted to [char], which keeps its low eight bits. *)
Definition narrow (w : wstring) : string :=
  string_of_list_ascii (map (fun u => ascii_of_N (u mod 256)) w).

Definition is_high_surrogate (u : N) : bool :=
  ((55296 <=? u) && (u <? 56320))%N.

Definition is_low_surrogate (u : N) : bool :=
  ((56320 <=? u) && (u <? 57344))%N.

(** The code points of a UTF-16 string; a surrogate without its partner
    becomes U+FFFD. *)
Fixpoint code_points (w : wstring) : list N :=
  match w with
  | [] => []
  | u :: w' =>
      if is_high_surrogate u
      then match w' with
           | v :: w'' =>
               if is_low_surrogate v
               then (65536 + (u - 55296) * 1024 + (v - 56320))%N
                    :: code_points w''
               else 65533%N :: code_points w'
           | [] => [65533%N]
           end
      else if is_low_surrogate u then 65533%N :: code_points w'
      else u :: code_points w'
  end.

Definition utf8_of_code_point (n : N) : list N :=
  if (n <? 128)%N then [n]
  else if (n <? 2048)%N then [192 + n / 64; 128 + n mod 64]%N
  else if (n <? 65536)%N
  then [224 + n / 4096; 128 + (n / 64) mod 64; 128 + n mod 64]%N
  else [240 + n / 262144; 128 + (n / 4096) mod 64;
        128 + (n / 64) mod 64; 128 + n mod 64]%N.

(** [WideCharToMultiByte(CP_UTF8, 0, w, -1, ...)] followed by the removal
    of the terminating null, as at lines 210 to 213 and 220 to 223: the
    UTF-8 bytes of the string. *)
Definition WideCharToMultiByte (w : wstring) : string :=
  string_of_list_ascii
    (map ascii_of_N (flat_map utf8_of_code_point (code_points w))).

(** The list part of a drop-down list box: its items in the order they were
    added (the box is created without the sorting style) and the index of
    the selected item, if any. *)
Record ComboBox : Type := {
  items : list wstring;
  selection : option nat
}.

(** Letter case is folded for the letters of ASCII, which are the only
    letters in the texts the source puts in the box and searches for. *)
Definition lower (u : N) : N :=
  if ((65 <=? u) && (u <=? 90))%N then (u + 32)%N else u.

(** [item] begins with the characters of [text], letter case aside. *)
Fixpoint begins_with (text item : wstring) : bool :=
  match text, item with
  | [], _ => true
  | _ :: _, [] => false
  | u :: text', v :: item' =>
      (lower u =? lower v)%N && begins_with text' item'
  end.

(** The index, counted from [index], of the first item that begins with
    [text]. *)
Fixpoint find_item (text : wstring) (l : list wstring) (index : nat)
  : option nat :=
  match l with
  | [] => None
  | item :: l' =>
      if begins_with text item then Some index
      else find_item text l' (S index)
  end.

(** The three messages the source sends to the box.  [CB_SETCURSEL] with an
    index past the end clears the selection; [CB_SELECTSTRING] with -1
    searches the whole list from the top and, when nothing matches, leaves
    the selection as it is. *)
Definition CB_ADDSTRING (text : wstring) (cb : ComboBox) : ComboBox :=
  {| items := items cb ++ [text]; selection := selection cb |}.

Definition CB_SETCURSEL (index : nat) (cb : ComboBox) : ComboBox :=
  {| items := items cb;
     selection := if (index <? length (items cb))%nat then Some index else None |}.

Definition CB_SELECTSTRING (text : wstring) (cb : ComboBox) : ComboBox :=
  match find_item text (items cb) 0 with
  | Some index => {| items := items cb; selection := Some index |}
  | None => cb
  end.

(** The text of the box: that of the selected item. *)
Definition combo_text (cb : ComboBox) : wstring :=
  match selection cb with
  | Some index => nth index (items cb) []
  | None => []
  end.

(** [GetWindowText(hwnd, buffer, nMaxCount)]: at most [nMaxCount - 1]
    units of the text are copied. *)
Definition GetWindowText (text : wstring) (nMaxCount : nat) : wstring :=
  firstn (nMaxCount - 1) text.

Definition MAX_PATH : nat := 260.

(** The two controls [validateCode] reads: the text of the path field and
    the language box. *)
Record Controls : Type := {
  g_hwndFilePath : wstring;
  g_hwndLanguageCombo : ComboBox
}.

(** The language box as the handler of [WM_CREATE] fills it. *)
Definition created_combo : ComboBox :=
  CB_SETCURSEL 0
    (CB_ADDSTRING (L "JavaScript")
       (CB_ADDSTRING (L "PHP")
          (CB_ADDSTRING (L "Python")
             (CB_ADDSTRING (L "Java")
                (CB_ADDSTRING (L "Auto-detect")
                   {| items := []; selection := None |}))))).

(** [browseForFile], given what the file dialog returned: [None] when it
    was cancelled, the content of the buffer [fileName] otherwise.  The
    path field receives the wide text; the extension that selects the
    language is that of the narrowed copy. *)
Definition browseForFile
    (P : Platform) (chosen : option wstring) (c : Controls) : Controls :=
  match chosen with
  | None => c
  | Some fileName =>
      let wFilePath := wc_str fileName in
      let filePath := narrow wFilePath in
      let extension := path_extension P filePath in
      {| g_hwndFilePath := wc_str fileName;
         g_hwndLanguageCombo :=
           if String.eqb extension ".java"
           then CB_SELECTSTRING (L "Java") (g_hwndLanguageCombo c)
           else if String.eqb extension ".py"
           then CB_SELECTSTRING (L "Python") (g_hwndLanguageCombo c)
           else if String.eqb extension ".php"
           then CB_SELECTSTRING (L "PHP") (g_hwndLanguageCombo c)
           else if String.eqb extension ".js"
           then CB_SELECTSTRING (L "JavaScript") (g_hwndLanguageCombo c)
           else g_hwndLanguageCombo c |}
  end.

(** The path and the language that [validateCode] reads from the controls
    into its two buffers and converts to UTF-8 (lines 205 to 223). *)
Definition read_controls (c : Controls) : string * string :=
  (WideCharToMultiByte (wc_str (GetWindowText (g_hwndFilePath c) MAX_PATH)),
   WideCharToMultiByte
     (wc_str (GetWindowText (combo_text (g_hwndLanguageCombo c)) 32))).


(** * Properties *)

(** ** Strings *)

Lemma append_assoc (a b c : string) : (a +:+ b) +:+ c = a +:+ (b +:+ c).
Proof. induction a as [|x a IH]; simpl; [reflexivity | f_equal; exact IH]. Qed.


Lemma substring_all (s : string) : substring 0 (String.length s) s = s.
Proof. induction s as [|c s IH]; simpl; [reflexivity | f_equal; exact IH]. Qed.

Lemma substring_prefix (pre s : string) :
  substring 0 (String.length pre) (pre +:+ s) = pre.
Proof.
  induction pre as [|c pre IH]; simpl.
  - destruct s; reflexivity.
  - f_equal. exact IH.
Qed.

Lemma substring_suffix (pre s : string) :
  substring (String.length pre) (String.length s) (pre +:+ s) = s.
Proof.
  induction pre as [|c pre IH]; simpl; [apply substring_all | exact IH].
Qed.

Lemma index_append_skip (needle pre s : string) (k : nat) :
  index (String.length pre + k) needle (pre +:+ s)
  = option_map (fun n => String.length pre + n) (index k needle s).
Proof.
  induction pre as [|c pre IH]; simpl.
  - destruct (index k needle s); reflexivity.
  - rewrite IH. destruct (index k needle s); reflexivity.
Qed.

Lemma prefix_single (c d : ascii) (rest : string) :
  String.prefix (String c EmptyString) (String d rest) = Ascii.eqb c d.
Proof.
  cbn [String.prefix]. destruct (ascii_dec c d) as [E|E].
  - subst d. rewrite Ascii.eqb_refl. destruct rest; reflexivity.
  - symmetry. apply Ascii.eqb_neq. exact E.
Qed.

Lemma find_at_backslash (pre rest : string) :
  find (pre +:+ String backslash rest) str_backslash (String.length pre)
  = Some (String.length pre).
Proof.
  unfold find. rewrite <- (Nat.add_0_r (String.length pre)) at 1.
  rewrite index_append_skip. unfold str_backslash. cbn [index].
  rewrite prefix_single, Ascii.eqb_refl. cbn [option_map].
  rewrite Nat.add_0_r. reflexivity.
Qed.

Lemma find_skip (pre rest : string) (c : ascii) :
  c <> backslash ->
  find (pre +:+ String c rest) str_backslash (String.length pre)
  = find (pre +:+ String c rest) str_backslash (String.length pre + 1).
Proof.
  intros Hc. unfold find.
  rewrite <- (Nat.add_0_r (String.length pre)) at 1.
  rewrite !index_append_skip. f_equal.
  unfold str_backslash. cbn [index].
  rewrite prefix_single.
  destruct (Ascii.eqb backslash c) eqn:E; [|reflexivity].
  apply Ascii.eqb_eq in E. congruence.
Qed.

Lemma replace_middle (pre rest r : string) (c : ascii) :
  replace (pre +:+ String c rest) (String.length pre) 1 r
  = Ok (pre +:+ r +:+ rest).
Proof.
  unfold replace. rewrite length_append. cbn [String.length].
  destruct (String.length pre + S (String.length rest) <? String.length pre)%nat eqn:E.
  - apply Nat.ltb_lt in E. lia.
  - rewrite substring_prefix.
    replace (String.length pre + S (String.length rest) - (String.length pre + 1))
      with (String.length rest) by lia.
    replace (pre +:+ String c rest) with ((pre +:+ String c EmptyString) +:+ rest)
      by (rewrite append_assoc; reflexivity).
    replace (String.length pre + 1)
      with (String.length (pre +:+ String c EmptyString))
      by (rewrite length_append; reflexivity).
    rewrite substring_suffix. reflexivity.
Qed.

(** ** [escapeFilePath] *)

(** The loop as a plain recursive equation. *)
Lemma escape_loop_step (escaped : string) (pos : nat) :
  escape_loop escaped pos =
  match find escaped str_backslash pos with
  | None => Ok escaped
  | Some p =>
      match replace escaped p 1 str_backslash2 with
      | Ok escaped' => escape_loop escaped' (p + 2)
      | Throw e => Throw e
      | Hang => Hang
      end
  end.
Proof.
  funelim (escape_loop escaped pos).
  - rewrite Hfind. reflexivity.
  - rewrite Hfind, Hrep. reflexivity.
  - rewrite Hfind, Hrep. reflexivity.
  - rewrite Hfind, Hrep. reflexivity.
Qed.

(** Loop invariant: with the cursor after [pre], the loop leaves [pre] as it
    is and doubles the backslashes of what follows. *)
Lemma escape_loop_spec (rest : string) :
  forall pre : string,
    escape_loop (pre +:+ rest) (String.length pre)
    = Ok (pre +:+ double_backslashes rest).
Proof.
  induction rest as [|c rest IH]; intros pre.
  - rewrite escape_loop_step. unfold find.
    rewrite <- (Nat.add_0_r (String.length pre)), index_append_skip.
    reflexivity.
  - cbn [double_backslashes]. destruct (Ascii.eqb c backslash) eqn:E.
    + apply Ascii.eqb_eq in E. subst c.
      rewrite escape_loop_step, find_at_backslash, replace_middle.
      specialize (IH (pre +:+ str_backslash2)).
      rewrite length_append, append_assoc in IH. cbn [String.length] in IH.
      rewrite append_assoc in IH. exact IH.
    + apply Ascii.eqb_neq in E.
      specialize (IH (pre +:+ String c EmptyString)).
      rewrite length_append, !append_assoc in IH.
      cbn [String.length append] in IH.
      rewrite <- IH.
      rewrite (escape_loop_step _ (String.length pre)).
      rewrite (escape_loop_step _ (String.length pre + 1)).
      rewrite find_skip by exact E. reflexivity.
Qed.

Lemma escapeFilePath_total (path : string) :
  escapeFilePath path = Ok (escape_spec path).
Proof.
  unfold escapeFilePath, escape_spec.
  change (escape_loop path 0)
    with (escape_loop (EmptyString +:+ path) (String.length EmptyString)).
  rewrite escape_loop_spec. reflexivity.
Qed.

Lemma no_backslash_get (s : string) :
  (forall n, String.get n s <> Some backslash) -> no_backslash s = true.
Proof.
  induction s as [|c s IH]; intros H; [reflexivity|].
  cbn [no_backslash]. apply andb_true_intro. split.
  - apply negb_true_iff, Ascii.eqb_neq. intros ->. exact (H 0 eq_refl).
  - apply IH. intros n. exact (H (S n)).
Qed.

Lemma double_backslashes_id (s : string) :
  no_backslash s = true -> double_backslashes s = s.
Proof.
  induction s as [|c s IH]; [reflexivity|].
  cbn [no_backslash double_backslashes]. intros H.
  apply andb_prop in H. destruct H as [Hc Hs].
  apply negb_true_iff in Hc. rewrite Hc. f_equal. exact (IH Hs).
Qed.

(** C8: for every path, [escapeFilePath] returns normally (it has no error
    case: the call to [replace] is always in range and the loop terminates),
    and what it returns is the path with every backslash replaced by two
    backslashes, wrapped in one leading and one trailing double quote. *)
Theorem escapeFilePath_doubles_and_quotes (path : string) :
  escapeFilePath path
  = Ok (str_dquote +:+ double_backslashes path +:+ str_dquote).
Proof. exact (escapeFilePath_total path). Qed.

(** C10: a path in which no backslash occurs comes back unchanged between
    the two added double quotes, whatever other characters it holds: double
    quotes and shell metacharacters inside it are not escaped. *)
Theorem escapeFilePath_no_backslash (path : string) :
  (forall n, String.get n path <> Some backslash) ->
  escapeFilePath path = Ok (str_dquote +:+ path +:+ str_dquote).
Proof.
  intros H. rewrite escapeFilePath_total. unfold escape_spec.
  rewrite (double_backslashes_id path (no_backslash_get path H)).
  reflexivity.
Qed.

Lemma escapeFilePath_no_backslash_witness :
  (forall n, String.get n hostile_name <> Some backslash)
  /\ escapeFilePath hostile_name
     = Ok (str_dquote +:+ hostile_name +:+ str_dquote).
Proof.
  assert (H : forall n, String.get n hostile_name <> Some backslash).
  { intros n.
    do 20 (destruct n as [|n]; [vm_compute; discriminate|]).
    vm_compute. discriminate. }
  split; [exact H | exact (escapeFilePath_no_backslash hostile_name H)].
Defined.

(** ** The validators: check phase, then run phase *)

Ltac monad_unfold :=
  cbv beta iota zeta delta
    [bind ret lift try_catch exists_ validate isCompatible
     JavaValidator PythonValidator PHPValidator JavaScriptValidator].

(** The success banner does not begin like an error message. *)
Lemma success_not_syntax_error (r : string) :
  String.prefix "Syntax errors:" (success_banner +:+ r) = false.
Proof. reflexivity. Qed.

Lemma success_not_compilation_error (r : string) :
  String.prefix "Compilation errors:" (success_banner +:+ r) = false.
Proof. reflexivity. Qed.

Lemma syntax_error_prefix (r : string) :
  String.prefix "Syntax errors:" ("Syntax errors:" +:+ nl +:+ r) = true.
Proof. reflexivity. Qed.

Lemma compilation_error_prefix (r : string) :
  String.prefix "Compilation errors:" ("Compilation errors:" +:+ nl +:+ r) = true.
Proof. reflexivity. Qed.

Lemma success_prefix (r : string) :
  String.prefix "Compilation successful." (success_banner +:+ r) = true.
Proof. reflexivity. Qed.

Lemma empty_false_iff (s : string) : negb (empty s) = true <-> s <> EmptyString.
Proof. destruct s; cbn; split; intros H; congruence. Qed.

(** Whether the run phase returns or throws, its result does not begin like
    an error message of the check phase. *)
Lemma run_phase_not_error (P : Platform) (command prefix : string) (s : Sys P) :
  (forall r, String.prefix prefix (success_banner +:+ r) = false) ->
  forall m s',
    bind (executeCommand P command)
         (fun runResult => ret (success_banner +:+ runResult)) s = (Ok m, s') ->
    String.prefix prefix m = false.
Proof.
  intros Hp m s'. unfold bind, ret.
  destruct (executeCommand P command s) as [[r|e|] s2]; intros H.
  - injection H as <- _. apply Hp.
  - discriminate.
  - discriminate.
Qed.

(** C6: the Python validator.  Once the check command has produced its
    output, [validate] ends with a message that begins with the syntax-error
    heading exactly when that output is not empty and contains the marker;
    in that case the message is the heading followed by the output, it is
    classed as a compile error, and no second command is started.  With any
    other output, empty or not, the run command is executed and the result
    is the success banner followed by its output. *)
Theorem python_check_then_run
    (P : Platform) (filePath syntaxResult : string) (s s1 : Sys P) :
  executeCommand P
    ("python -m py_compile " +:+ escape_spec filePath +:+ " 2>&1") s
    = (Ok syntaxResult, s1) ->
  let fatal := negb (empty syntaxResult) && contains syntaxResult "SyntaxError" in
  ((exists m s', validate (PythonValidator P) filePath s = (Ok m, s')
                 /\ String.prefix "Syntax errors:" m = true)
   <-> syntaxResult <> EmptyString /\ contains syntaxResult "SyntaxError" = true)
  /\ (fatal = true ->
      validate (PythonValidator P) filePath s
      = (Ok ("Syntax errors:" +:+ nl +:+ syntaxResult), s1)
      /\ outcome_status ("Syntax errors:" +:+ nl +:+ syntaxResult)
         = Some CompileError)
  /\ (fatal = false ->
      forall runResult s2,
        executeCommand P ("python " +:+ escape_spec filePath +:+ " 2>&1") s1
        = (Ok runResult, s2) ->
        validate (PythonValidator P) filePath s
        = (Ok ("Compilation successful." +:+ nl +:+ "Execution output:" +:+ nl
               +:+ runResult), s2)).
Proof.
  intros Hcheck fatal.
  assert (Hv : validate (PythonValidator P) filePath s
               = if fatal
                 then (Ok ("Syntax errors:" +:+ nl +:+ syntaxResult), s1)
                 else bind (executeCommand P
                              ("python " +:+ escape_spec filePath +:+ " 2>&1"))
                           (fun runResult => ret (success_banner +:+ runResult)) s1).
  { monad_unfold. rewrite escapeFilePath_total. cbv beta iota zeta.
    rewrite Hcheck. fold fatal. destruct fatal; reflexivity. }
  split; [|split].
  - rewrite <- empty_false_iff, <- andb_true_iff. fold fatal. split.
    + intros (m & s' & Hm & Hp). rewrite Hv in Hm.
      destruct fatal; [reflexivity|].
      apply (run_phase_not_error P _ _ _ success_not_syntax_error) in Hm.
      congruence.
    + intros Hf. rewrite Hv, Hf. eexists _, _. split; [reflexivity|].
      apply syntax_error_prefix.
  - intros Hf. rewrite Hv, Hf. split; reflexivity.
  - intros Hf runResult s2 Hrun. rewrite Hv, Hf. unfold bind, ret.
    rewrite Hrun. reflexivity.
Qed.

(** The shape shared by the four [validate] methods, once the check command
    has returned [out]: a heading followed by [out] when the variant's test
    of [out] says so, the run phase otherwise. *)
Lemma check_then_run_shape
    (P : Platform) (outcome : result string * Sys P)
    (heading out runCommand : string) (s1 : Sys P) (fatal : bool) :
  outcome
  = (if fatal
     then (Ok (heading +:+ nl +:+ out), s1)
     else bind (executeCommand P runCommand)
               (fun runResult => ret (success_banner +:+ runResult)) s1) ->
  String.prefix heading (heading +:+ nl +:+ out) = true ->
  (forall r, String.prefix heading (success_banner +:+ r) = false) ->
  ((exists m s', outcome = (Ok m, s') /\ String.prefix heading m = true)
   <-> fatal = true)
  /\ (fatal = true -> outcome = (Ok (heading +:+ nl +:+ out), s1))
  /\ (fatal = false ->
      forall runResult s2,
        executeCommand P runCommand s1 = (Ok runResult, s2) ->
        outcome = (Ok (success_banner +:+ runResult), s2)).
Proof.
  intros Hv Hhead Hbanner. split; [|split].
  - split.
    + intros (m & s' & Hm & Hp). rewrite Hv in Hm.
      destruct fatal; [reflexivity|].
      apply (run_phase_not_error P _ _ _ Hbanner) in Hm. congruence.
    + intros Hf. rewrite Hv, Hf. eexists _, _. split; [reflexivity | exact Hhead].
  - intros Hf. rewrite Hv, Hf. reflexivity.
  - intros Hf runResult s2 Hrun. rewrite Hv, Hf. unfold bind, ret.
    rewrite Hrun. reflexivity.
Qed.

(** C7: the Java, PHP and JavaScript validators.  Once the check command has
    produced its output, Java and JavaScript end with their error heading
    exactly when that output is not empty, and PHP exactly when the output
    does not contain its marker; the message is then the heading followed by
    the output and is classed as a compile error.  Otherwise the run command
    is executed and the result is the success banner followed by its
    output. *)
Theorem java_php_javascript_check_then_run
    (P : Platform) (filePath : string) (s : Sys P) :
  (forall compileResult s1,
      executeCommand P ("javac " +:+ escape_spec filePath +:+ " 2>&1") s
      = (Ok compileResult, s1) ->
      ((exists m s', validate (JavaValidator P) filePath s = (Ok m, s')
                     /\ String.prefix "Compilation errors:" m = true)
       <-> compileResult <> EmptyString)
      /\ (compileResult <> EmptyString ->
          validate (JavaValidator P) filePath s
          = (Ok ("Compilation errors:" +:+ nl +:+ compileResult), s1)
          /\ outcome_status ("Compilation errors:" +:+ nl +:+ compileResult)
             = Some CompileError)
      /\ (compileResult = EmptyString ->
          forall runResult s2,
            executeCommand P
              ("cd " +:+ escape_spec (path_parent_path P filePath)
               +:+ " && java " +:+ path_stem P filePath +:+ " 2>&1") s1
            = (Ok runResult, s2) ->
            validate (JavaValidator P) filePath s
            = (Ok ("Compilation successful." +:+ nl +:+ "Execution output:"
                   +:+ nl +:+ runResult), s2)))
  /\ (forall syntaxResult s1,
      executeCommand P ("php -l " +:+ escape_spec filePath +:+ " 2>&1") s
      = (Ok syntaxResult, s1) ->
      ((exists m s', validate (PHPValidator P) filePath s = (Ok m, s')
                     /\ String.prefix "Syntax errors:" m = true)
       <-> contains syntaxResult "No syntax errors" = false)
      /\ (contains syntaxResult "No syntax errors" = false ->
          validate (PHPValidator P) filePath s
          = (Ok ("Syntax errors:" +:+ nl +:+ syntaxResult), s1)
          /\ outcome_status ("Syntax errors:" +:+ nl +:+ syntaxResult)
             = Some CompileError)
      /\ (contains syntaxResult "No syntax errors" = true ->
          forall runResult s2,
            executeCommand P ("php " +:+ escape_spec filePath +:+ " 2>&1") s1
            = (Ok runResult, s2) ->
            validate (PHPValidator P) filePath s
            = (Ok ("Compilation successful." +:+ nl +:+ "Execution output:"
                   +:+ nl +:+ runResult), s2)))
  /\ (forall checkResult s1,
      executeCommand P ("node --check " +:+ escape_spec filePath +:+ " 2>&1") s
      = (Ok checkResult, s1) ->
      ((exists m s', validate (JavaScriptValidator P) filePath s = (Ok m, s')
                     /\ String.prefix "Syntax errors:" m = true)
       <-> checkResult <> EmptyString)
      /\ (checkResult <> EmptyString ->
          validate (JavaScriptValidator P) filePath s
          = (Ok ("Syntax errors:" +:+ nl +:+ checkResult), s1)
          /\ outcome_status ("Syntax errors:" +:+ nl +:+ checkResult)
             = Some CompileError)
      /\ (checkResult = EmptyString ->
          forall runResult s2,
            executeCommand P ("node " +:+ escape_spec filePath +:+ " 2>&1") s1
            = (Ok runResult, s2) ->
            validate (JavaScriptValidator P) filePath s
            = (Ok ("Compilation successful." +:+ nl +:+ "Execution output:"
                   +:+ nl +:+ runResult), s2))).
Proof.
  split; [|split].
  - intros compileResult s1 Hcheck.
    destruct (check_then_run_shape P (validate (JavaValidator P) filePath s)
                "Compilation errors:" compileResult
                ("cd " +:+ escape_spec (path_parent_path P filePath)
                 +:+ " && java " +:+ path_stem P filePath +:+ " 2>&1")
                s1 (negb (empty compileResult)))
      as (Hiff & Hfatal & Hrun).
    + monad_unfold. rewrite !escapeFilePath_total. cbv beta iota zeta.
      rewrite Hcheck. destruct (negb (empty compileResult)); reflexivity.
    + apply compilation_error_prefix.
    + exact success_not_compilation_error.
    + rewrite empty_false_iff in Hiff, Hfatal. split; [exact Hiff | split].
      * intros Hne. split; [exact (Hfatal Hne) | reflexivity].
      * intros ->. exact (Hrun eq_refl).
  - intros syntaxResult s1 Hcheck.
    destruct (check_then_run_shape P (validate (PHPValidator P) filePath s)
                "Syntax errors:" syntaxResult
                ("php " +:+ escape_spec filePath +:+ " 2>&1")
                s1 (negb (contains syntaxResult "No syntax errors")))
      as (Hiff & Hfatal & Hrun).
    + monad_unfold. rewrite !escapeFilePath_total. cbv beta iota zeta.
      rewrite Hcheck.
      destruct (negb (contains syntaxResult "No syntax errors")); reflexivity.
    + apply syntax_error_prefix.
    + exact success_not_syntax_error.
    + rewrite negb_true_iff in Hiff, Hfatal. rewrite negb_false_iff in Hrun.
      split; [exact Hiff | split].
      * intros Hne. split; [exact (Hfatal Hne) | reflexivity].
      * exact Hrun.
  - intros checkResult s1 Hcheck.
    destruct (check_then_run_shape P (validate (JavaScriptValidator P) filePath s)
                "Syntax errors:" checkResult
                ("node " +:+ escape_spec filePath +:+ " 2>&1")
                s1 (negb (empty checkResult)))
      as (Hiff & Hfatal & Hrun).
    + monad_unfold. rewrite !escapeFilePath_total. cbv beta iota zeta.
      rewrite Hcheck. destruct (negb (empty checkResult)); reflexivity.
    + apply syntax_error_prefix.
    + exact success_not_syntax_error.
    + rewrite empty_false_iff in Hiff, Hfatal. split; [exact Hiff | split].
      * intros Hne. split; [exact (Hfatal Hne) | reflexivity].
      * intros ->. exact (Hrun eq_refl).
Qed.

Lemma python_check_then_run_witness :
  let P := scripted ["bad.py"] rejecting_tools in
  let out := "  File bad.py, line 1" +:+ nl +:+ "SyntaxError: invalid syntax" +:+ nl in
  let s1 : Sys P :=
    Build_Sys P tt ["python -m py_compile " +:+ escape_spec "bad.py" +:+ " 2>&1"] in
  executeCommand P
    ("python -m py_compile " +:+ escape_spec "bad.py" +:+ " 2>&1") (start_sys P tt)
  = (Ok out, s1)
  /\ validate (PythonValidator P) "bad.py" (start_sys P tt)
     = (Ok ("Syntax errors:" +:+ nl +:+ out), s1).
Proof.
  intros P out s1. split; [reflexivity|].
  destruct (python_check_then_run P "bad.py" out (start_sys P tt) s1 eq_refl)
    as (_ & Hfatal & _).
  exact (proj1 (Hfatal eq_refl)).
Defined.

Lemma java_php_javascript_check_then_run_witness :
  let P := scripted ["Main.java"; "bad.php"; "bad.js"] rejecting_tools in
  let javac_out := "Main.java:1: error: ';' expected" +:+ nl +:+ "1 error" +:+ nl in
  let javac_cmd := "javac " +:+ escape_spec "Main.java" +:+ " 2>&1" in
  let php_out := "PHP Parse error: syntax error in bad.php on line 1" +:+ nl in
  let php_cmd := "php -l " +:+ escape_spec "bad.php" +:+ " 2>&1" in
  let node_out := "SyntaxError: Unexpected token" +:+ nl in
  let node_cmd := "node --check " +:+ escape_spec "bad.js" +:+ " 2>&1" in
  (executeCommand P javac_cmd (start_sys P tt)
   = (Ok javac_out, Build_Sys P tt [javac_cmd])
   /\ javac_out <> EmptyString
   /\ validate (JavaValidator P) "Main.java" (start_sys P tt)
      = (Ok ("Compilation errors:" +:+ nl +:+ javac_out),
         Build_Sys P tt [javac_cmd]))
  /\ (executeCommand P php_cmd (start_sys P tt)
      = (Ok php_out, Build_Sys P tt [php_cmd])
      /\ contains php_out "No syntax errors" = false
      /\ validate (PHPValidator P) "bad.php" (start_sys P tt)
         = (Ok ("Syntax errors:" +:+ nl +:+ php_out), Build_Sys P tt [php_cmd]))
  /\ (executeCommand P node_cmd (start_sys P tt)
      = (Ok node_out, Build_Sys P tt [node_cmd])
      /\ node_out <> EmptyString
      /\ validate (JavaScriptValidator P) "bad.js" (start_sys P tt)
         = (Ok ("Syntax errors:" +:+ nl +:+ node_out), Build_Sys P tt [node_cmd])).
Proof.
  intros P javac_out javac_cmd php_out php_cmd node_out node_cmd.
  assert (Hjne : javac_out <> EmptyString) by discriminate.
  assert (Hnne : node_out <> EmptyString) by discriminate.
  split; [|split].
  - split; [reflexivity | split; [exact Hjne|]].
    destruct (java_php_javascript_check_then_run P "Main.java" (start_sys P tt))
      as (Hjava & _ & _).
    destruct (Hjava javac_out (Build_Sys P tt [javac_cmd]) eq_refl)
      as (_ & Hfatal & _).
    exact (proj1 (Hfatal Hjne)).
  - split; [reflexivity | split; [reflexivity|]].
    destruct (java_php_javascript_check_then_run P "bad.php" (start_sys P tt))
      as (_ & Hphp & _).
    destruct (Hphp php_out (Build_Sys P tt [php_cmd]) eq_refl)
      as (_ & Hfatal & _).
    exact (proj1 (Hfatal eq_refl)).
  - split; [reflexivity | split; [exact Hnne|]].
    destruct (java_php_javascript_check_then_run P "bad.js" (start_sys P tt))
      as (_ & _ & Hjs).
    destruct (Hjs node_out (Build_Sys P tt [node_cmd]) eq_refl)
      as (_ & Hfatal & _).
    exact (proj1 (Hfatal Hnne)).
Defined.

(** ** Selection *)

Lemma getValidator_auto (P : Platform) (filePath : string) :
  getValidator P "Auto-detect" filePath
  = let extension := path_extension P filePath in
    if String.eqb extension ".java" then Some (JavaValidator P)
    else if String.eqb extension ".py" then Some (PythonValidator P)
    else if String.eqb extension ".php" then Some (PHPValidator P)
    else if String.eqb extension ".js" then Some (JavaScriptValidator P)
    else None.
Proof. reflexivity. Qed.

(** C4, as the code has it: the tag that asks for detection is the text of
    the first combo-box entry, and with it the selection follows the
    extension table: one validator for each of the four extensions (the
    Python one for every path whose extension is .py), none for any other
    extension. *)
Theorem auto_detect_selection (P : Platform) (filePath : string) :
  (path_extension P filePath = ".java" ->
   getValidator P "Auto-detect" filePath = Some (JavaValidator P))
  /\ (path_extension P filePath = ".py" ->
      getValidator P "Auto-detect" filePath = Some (PythonValidator P))
  /\ (path_extension P filePath = ".php" ->
      getValidator P "Auto-detect" filePath = Some (PHPValidator P))
  /\ (path_extension P filePath = ".js" ->
      getValidator P "Auto-detect" filePath = Some (JavaScriptValidator P))
  /\ (path_extension P filePath <> ".java" ->
      path_extension P filePath <> ".py" ->
      path_extension P filePath <> ".php" ->
      path_extension P filePath <> ".js" ->
      getValidator P "Auto-detect" filePath = None).
Proof.
  rewrite getValidator_auto. cbv zeta.
  split; [|split; [|split; [|split]]].
  - intros ->. reflexivity.
  - intros ->. reflexivity.
  - intros ->. reflexivity.
  - intros ->. reflexivity.
  - intros H1 H2 H3 H4.
    apply String.eqb_neq in H1, H2, H3, H4.
    rewrite H1, H2, H3, H4. reflexivity.
Qed.

Lemma auto_detect_selection_witness :
  let P := scripted [] silent_tools in
  (path_extension P "x.py" = ".py"
   /\ getValidator P "Auto-detect" "x.py" = Some (PythonValidator P))
  /\ (path_extension P "x.xyz" = ".xyz"
      /\ getValidator P "Auto-detect" "x.xyz" = None)
  /\ getValidator P "Auto-detect" "Main.java" = Some (JavaValidator P)
  /\ getValidator P "Auto-detect" "index.php" = Some (PHPValidator P)
  /\ getValidator P "Auto-detect" "app.js" = Some (JavaScriptValidator P).
Proof.
  intros P.
  destruct (auto_detect_selection P "x.py") as (_ & Hpy & _).
  destruct (auto_detect_selection P "x.xyz") as (_ & _ & _ & _ & Hnone).
  destruct (auto_detect_selection P "Main.java") as (Hjava & _).
  destruct (auto_detect_selection P "index.php") as (_ & _ & Hphp & _).
  destruct (auto_detect_selection P "app.js") as (_ & _ & _ & Hjs & _).
  split; [split; [reflexivity | exact (Hpy eq_refl)] |].
  split; [split; [reflexivity | apply Hnone; vm_compute; discriminate] |].
  split; [exact (Hjava eq_refl) |].
  split; [exact (Hphp eq_refl) | exact (Hjs eq_refl)].
Defined.

(** C4 as the specification words it fails: the tag spelled as in the
    specification is none of the five texts that [getValidator] compares
    with, so nothing is selected for a Python file. *)
Lemma auto_tag_selects_nothing :
  let P := scripted [] silent_tools in
  path_extension P "x.py" = ".py"
  /\ getValidator P "auto" "x.py" = None
  /\ getValidator P "auto" "x.py" <> Some (PythonValidator P).
Proof.
  intros P. split; [reflexivity | split; [reflexivity | discriminate]].
Qed.

(** C5: each of the four language names selects its validator whatever the
    extension of the file is; and when the file exists but its extension is
    not the validator's, the job ends with the mismatch message, classed as
    a selection error, in the state it started in (no command is run). *)
Theorem explicit_tag_selection
    (P : Platform) (filePath : string) (s : Sys P)
    (language extension : string) (validator : LanguageValidator P) :
  In (language, validator, extension)
     [("Java", JavaValidator P, ".java");
      ("Python", PythonValidator P, ".py");
      ("PHP", PHPValidator P, ".php");
      ("JavaScript", JavaScriptValidator P, ".js")] ->
  getValidator P language filePath = Some validator
  /\ (filePath <> EmptyString ->
      fs_exists P filePath (world s) = Ok true ->
      path_extension P filePath <> extension ->
      validation_result P filePath language s
      = (Ok "Selected language doesn't match the file extension.", s)
      /\ outcome_status "Selected language doesn't match the file extension."
         = Some SelectionError).
Proof.
  intros Hin.
  assert (Hsel : getValidator P language filePath = Some validator
                 /\ isCompatible validator filePath
                    = String.eqb (path_extension P filePath) extension).
  { cbn [In] in Hin.
    destruct Hin as [H|[H|[H|[H|[]]]]]; injection H as <- <- <-;
      split; reflexivity. }
  destruct Hsel as [Hget Hcompat]. split; [exact Hget|].
  intros Hne Hex Hext. split; [|reflexivity].
  unfold validation_result, try_catch, validation_try.
  destruct filePath as [|c filePath]; [congruence|].
  cbn [empty]. unfold bind, exists_. rewrite Hex. cbn [negb].
  rewrite Hget, Hcompat.
  apply String.eqb_neq in Hext. rewrite Hext. reflexivity.
Qed.

Lemma explicit_tag_selection_witness :
  let P := scripted ["x.py"] accepting_tools in
  getValidator P "Java" "x.py" = Some (JavaValidator P)
  /\ validation_result P "x.py" "Java" (start_sys P tt)
     = (Ok "Selected language doesn't match the file extension.", start_sys P tt).
Proof.
  intros P.
  destruct (explicit_tag_selection P "x.py" (start_sys P tt)
              "Java" ".java" (JavaValidator P)) as [Hget Hjob].
  - left. reflexivity.
  - split; [exact Hget|].
    apply Hjob; [discriminate | reflexivity | vm_compute; discriminate].
Defined.

(** ** The validation job *)

(** What each validator does, as one check phase and one run phase. *)
Lemma validate_two_phase
    (P : Platform) (filePath : string)
    (validator : LanguageValidator P) (check run heading : string) :
  In (validator, check, run, heading) (validator_table P filePath) ->
  exists fatal : string -> bool,
    forall s,
      validate validator filePath s
      = bind (executeCommand P check)
          (fun out =>
             if fatal out
             then ret (heading +:+ nl +:+ out)
             else bind (executeCommand P run)
                       (fun runResult => ret (success_banner +:+ runResult))) s.
Proof.
  intros Hin. unfold validator_table in Hin. cbn [In] in Hin.
  destruct Hin as [H|[H|[H|[H|[]]]]]; injection H as <- <- <- <-.
  - exists (fun out => negb (empty out)). intros s.
    monad_unfold. rewrite !escapeFilePath_total. reflexivity.
  - exists (fun out => negb (empty out) && contains out "SyntaxError"). intros s.
    monad_unfold. rewrite !escapeFilePath_total. reflexivity.
  - exists (fun out => negb (contains out "No syntax errors")). intros s.
    monad_unfold. rewrite !escapeFilePath_total. reflexivity.
  - exists (fun out => negb (empty out)). intros s.
    monad_unfold. rewrite !escapeFilePath_total. reflexivity.
Qed.

Lemma getValidator_in_table
    (P : Platform) (language filePath : string) (v : LanguageValidator P) :
  getValidator P language filePath = Some v ->
  exists check run heading,
    In (v, check, run, heading) (validator_table P filePath).
Proof.
  unfold getValidator, validator_table. intros H.
  repeat match type of H with
         | (if ?b then _ else _) = _ => destruct b
         end;
    try discriminate; injection H as <-; cbn [In]; eauto 10.
Qed.

(** Nothing thrown inside the [try] block leaves it. *)
Lemma validation_result_never_throws
    (P : Platform) (filePath language : string) (s : Sys P) :
  forall e s', validation_result P filePath language s <> (Throw e, s').
Proof.
  intros e s'. unfold validation_result, try_catch.
  destruct (validation_try P filePath language s) as [[m|e0|] s0].
  - discriminate.
  - destruct e0; discriminate.
  - discriminate.
Qed.

Lemma executeCommand_returns (P : Platform) (command : string) (s : Sys P) :
  terminating P -> forall s', executeCommand P command s <> (Hang, s').
Proof.
  intros [Hp _] s'. unfold executeCommand.
  pose proof (Hp command (world s)) as H.
  destruct (popen P command (world s)) as [p w]. cbn in H.
  destruct p; try discriminate. congruence.
Qed.

Lemma validate_returns
    (P : Platform) (filePath : string) (s : Sys P)
    (validator : LanguageValidator P) (check run heading : string) :
  terminating P ->
  In (validator, check, run, heading) (validator_table P filePath) ->
  forall s', validate validator filePath s <> (Hang, s').
Proof.
  intros Ht Hin s'.
  destruct (validate_two_phase P filePath validator check run heading Hin)
    as (fatal & Hv).
  rewrite Hv. unfold bind, ret.
  destruct (executeCommand P check s) as [[out|e|] s1] eqn:E1.
  - destruct (fatal out); [discriminate|].
    destruct (executeCommand P run s1) as [[r|e|] s2] eqn:E2; try discriminate.
    destruct (executeCommand_returns P run s1 Ht s2 E2).
  - discriminate.
  - destruct (executeCommand_returns P check s Ht s1 E1).
Qed.

(** On a machine whose calls all return, the job returns a text. *)
Lemma validation_result_returns
    (P : Platform) (filePath language : string) (s : Sys P) :
  terminating P ->
  exists m s', validation_result P filePath language s = (Ok m, s').
Proof.
  intros Ht.
  assert (Htry : forall s', validation_try P filePath language s <> (Hang, s')).
  { intros s'. unfold validation_try.
    destruct filePath as [|c filePath]; [discriminate|].
    cbn [empty]. unfold bind at 1, exists_.
    pose proof (proj2 Ht (String c filePath) (world s)) as Hex.
    destruct (fs_exists P (String c filePath) (world s)) as [found|e|];
      [|discriminate|congruence].
    destruct found; cbn [negb]; [|discriminate].
    destruct (getValidator P language (String c filePath)) as [v|] eqn:Hget;
      [|discriminate].
    destruct (isCompatible v (String c filePath)); cbn [negb]; [|discriminate].
    destruct (getValidator_in_table P _ _ v Hget)
      as (check & run & heading & Hin).
    exact (validate_returns P _ s v check run heading Ht Hin s'). }
  unfold validation_result, try_catch.
  destruct (validation_try P filePath language s) as [[m|e|] s0] eqn:E.
  - eauto.
  - destruct e; cbn; eauto.
  - destruct (Htry s0 eq_refl).
Qed.

(** C3: with an empty path the outcome is the request to select a file; with
    a path that is not empty and names no existing file it is the
    file-does-not-exist message followed by the path.  Both are classed as
    system errors, and in both cases the job ends in the state it started
    in: the log of started commands has not grown. *)
Theorem request_shape_errors
    (P : Platform) (filePath language : string) (s : Sys P) :
  (filePath = EmptyString ->
   validation_result P filePath language s
   = (Ok "Please select a file to validate.", s)
   /\ outcome_status "Please select a file to validate." = Some SystemError)
  /\ (filePath <> EmptyString ->
      fs_exists P filePath (world s) = Ok false ->
      validation_result P filePath language s
      = (Ok ("File does not exist: " +:+ filePath), s)
      /\ outcome_status ("File does not exist: " +:+ filePath) = Some SystemError).
Proof.
  split.
  - intros ->. split; reflexivity.
  - intros Hne Hex.
    destruct filePath as [|c filePath]; [congruence|].
    split; [|reflexivity].
    unfold validation_result, try_catch, validation_try.
    cbn [empty]. unfold bind, exists_. rewrite Hex. reflexivity.
Qed.

Lemma request_shape_errors_witness :
  let P := scripted ["hello.py"] accepting_tools in
  validation_result P EmptyString "Python" (start_sys P tt)
  = (Ok "Please select a file to validate.", start_sys P tt)
  /\ validation_result P "missing.py" "auto" (start_sys P tt)
     = (Ok "File does not exist: missing.py", start_sys P tt).
Proof.
  intros P. split.
  - exact (proj1 (proj1 (request_shape_errors P EmptyString "Python"
                           (start_sys P tt)) eq_refl)).
  - apply (proj2 (request_shape_errors P "missing.py" "auto" (start_sys P tt)));
      [discriminate | reflexivity].
Defined.

(** A scripted machine on which no tool hangs. *)
Lemma scripted_terminating (files : list string) (tools : string -> pipe) :
  (forall command, tools command <> PipeHangs) ->
  terminating (scripted files tools).
Proof.
  intros Htools. split.
  - intros command w. cbn. apply Htools.
  - intros filePath w. cbn. discriminate.
Qed.

(** C9, as the code has it: when [_popen] cannot start the command,
    [executeCommand] returns a text that names the command instead of
    throwing; the validator takes that text for the output of the tool, so
    for Java the job ends with the compilation-errors heading followed by
    that text, classed as a compile error; and whatever happens inside the
    job, nothing is thrown past the [catch] clauses: on a machine whose
    calls all return (as where no tool can be started), the result of the
    job is a text. *)
Theorem launch_failure_reported_in_band
    (P : Platform) (command filePath language : string) (s : Sys P) :
  (forall w',
      popen P command (world s) = (PipeNull, w') ->
      executeCommand P command s
      = (Ok ("Error executing command: " +:+ command),
         {| world := w'; launched := launched s ++ [command] |}))
  /\ (forall w',
      popen P ("javac " +:+ escape_spec filePath +:+ " 2>&1") (world s)
      = (PipeNull, w') ->
      validate (JavaValidator P) filePath s
      = (Ok ("Compilation errors:" +:+ nl +:+ "Error executing command: "
             +:+ "javac " +:+ escape_spec filePath +:+ " 2>&1"),
         {| world := w';
            launched := launched s
                        ++ ["javac " +:+ escape_spec filePath +:+ " 2>&1"] |})
      /\ outcome_status ("Compilation errors:" +:+ nl
                         +:+ "Error executing command: "
                         +:+ "javac " +:+ escape_spec filePath +:+ " 2>&1")
         = Some CompileError)
  /\ (forall e s', validation_result P filePath language s <> (Throw e, s'))
  /\ (terminating P ->
      exists m s', validation_result P filePath language s = (Ok m, s')).
Proof.
  split; [|split; [|split]].
  - intros w' Hp. unfold executeCommand. rewrite Hp. reflexivity.
  - intros w' Hp. split; [|reflexivity].
    monad_unfold. rewrite escapeFilePath_total. cbv beta iota zeta.
    unfold executeCommand at 1. rewrite Hp. reflexivity.
  - apply validation_result_never_throws.
  - apply validation_result_returns.
Qed.

Lemma launch_failure_reported_in_band_witness :
  let P := scripted ["Main.java"] no_tools in
  let javac := "javac " +:+ escape_spec "Main.java" +:+ " 2>&1" in
  popen P javac tt = (PipeNull, tt)
  /\ executeCommand P javac (start_sys P tt)
     = (Ok ("Error executing command: " +:+ javac), Build_Sys P tt [javac])
  /\ validate (JavaValidator P) "Main.java" (start_sys P tt)
     = (Ok ("Compilation errors:" +:+ nl +:+ "Error executing command: " +:+ javac),
        Build_Sys P tt [javac])
  /\ terminating P
  /\ exists m s',
       validation_result P "Main.java" "Java" (start_sys P tt) = (Ok m, s').
Proof.
  intros P javac.
  assert (Hterm : terminating P).
  { apply scripted_terminating. intros command. discriminate. }
  destruct (launch_failure_reported_in_band P javac "Main.java" "Java"
              (start_sys P tt)) as (Hexec & Hjava & _ & Hreturns).
  split; [reflexivity | split; [|split; [|split]]].
  - exact (Hexec tt eq_refl).
  - exact (proj1 (Hjava tt eq_refl)).
  - exact Hterm.
  - exact (Hreturns Hterm).
Defined.

(** C9 as the specification words it fails: on a machine where no tool can
    be started, the job for an existing Java file ends with a message
    classed as a compile error, and the job for an existing Python file runs
    both phases and ends with the success banner; neither outcome is a
    system error. *)
Lemma launch_failure_not_system_error :
  let P := scripted ["Main.java"; "x.py"] no_tools in
  let java_message :=
    "Compilation errors:" +:+ nl +:+ "Error executing command: javac "
    +:+ escape_spec "Main.java" +:+ " 2>&1" in
  let python_message :=
    "Compilation successful." +:+ nl +:+ "Execution output:" +:+ nl
    +:+ "Error executing command: python " +:+ escape_spec "x.py" +:+ " 2>&1" in
  (forall command w, fst (popen P command w) = PipeNull)
  /\ fst (validation_result P "Main.java" "Java" (start_sys P tt)) = Ok java_message
  /\ outcome_status java_message = Some CompileError
  /\ outcome_status java_message <> Some SystemError
  /\ fst (validation_result P "x.py" "Auto-detect" (start_sys P tt)) = Ok python_message
  /\ outcome_status python_message = Some RuntimeOutput
  /\ outcome_status python_message <> Some SystemError.
Proof.
  intros P java_message python_message.
  split; [reflexivity|].
  split; [reflexivity|].
  split; [reflexivity|].
  split; [discriminate|].
  split; [reflexivity|].
  split; [reflexivity | discriminate].
Qed.

(** ** The single-flight discipline *)

Section JobProperties.

Variable P : Platform.

Lemma Inv_init (w : World P) : Inv (init P w).
Proof.
  split; cbn; try (intros; discriminate); try done.
  - intros i. split; [discriminate|]. intros (pc & H & _). discriminate.
Qed.

#[local] Arguments deliveries : simpl never.

Lemma deliveries_snoc (i j : nat) (r : string) (l : list (nat * string)) :
  deliveries i (l ++ [(j, r)])
  = deliveries i l + (if decide (j = i) then 1 else 0).
Proof.
  unfold deliveries. rewrite filter_app, length_app. f_equal.
  rewrite filter_cons, filter_nil. cbn [fst].
  destruct (decide (j = i)); reflexivity.
Qed.

Lemma lookup_set_worker (g : Global P) (i j : nat) (pc pc' : worker_pc) :
  <[i := pc]> (workers g) !! j = Some pc'
  <-> (i = j /\ pc = pc' /\ j < length (workers g))
      \/ (i <> j /\ workers g !! j = Some pc').
Proof. apply list_lookup_insert_Some. Qed.

Ltac inv_lookups :=
  repeat match goal with
    | H : <[_ := _]> _ !! _ = Some _ |- _ =>
        apply list_lookup_insert_Some in H;
        destruct H as [(-> & <- & ?) | (? & ?)]
    | H : (_ ++ [_]) !! _ = Some _ |- _ =>
        apply lookup_snoc_Some in H;
        destruct H as [(? & ?) | (-> & <-)]
    end.


Lemma no_worker_holds (g : Global P) :
  Inv g -> (forall i, g_mutex g <> Some (Worker i)) ->
  forall i pc, workers g !! i = Some pc -> holds_lock pc = false.
Proof.
  intros HI Hm i pc Hi. destruct (holds_lock pc) eqn:E; [|reflexivity].
  destruct (Hm i). apply (inv_worker_lock g HI). eauto.
Qed.

Ltac leaf := try done; try (intros; inv_lookups; simplify_eq/=; solve [eauto 4]).

Lemma others_done (g : Global P) (i : nat) (pc : worker_pc) :
  Inv g -> workers g !! i = Some pc -> finished pc = false ->
  forall k pk, k <> i -> workers g !! k = Some pk -> pk = WDone.
Proof.
  intros HI Hi Hf k pk Hne Hk.
  destruct (finished pk) eqn:E.
  - destruct pk; try discriminate. reflexivity.
  - destruct Hne. exact (inv_one g HI k i pk pc Hk Hi E Hf).
Qed.

Lemma worker_lock_after
    (g : Global P) (i : nat) (pc pc' : worker_pc) (m' : option thread) :
  Inv g -> workers g !! i = Some pc -> finished pc = false ->
  (m' = Some (Worker i) <-> holds_lock pc' = true) ->
  (forall k, k <> i -> m' <> Some (Worker k)) ->
  forall k, m' = Some (Worker k)
            <-> exists pk, <[i := pc']> (workers g) !! k = Some pk
                           /\ holds_lock pk = true.
Proof.
  intros HI Hi Hf Hown Hother k.
  pose proof (lookup_lt_Some _ _ _ Hi) as Hlen.
  destruct (decide (k = i)) as [->|Hne].
  - rewrite Hown, list_lookup_insert_eq by exact Hlen. split.
    + intros H. eauto.
    + intros (pk & [= <-] & H). exact H.
  - rewrite list_lookup_insert_ne by done. split.
    + intros H. destruct (Hother k Hne H).
    + intros (pk & Hk & H).
      rewrite (others_done g i pc HI Hi Hf k pk Hne Hk) in H. discriminate.
Qed.

Lemma one_after (g : Global P) (i : nat) (pc pc' : worker_pc) :
  Inv g -> workers g !! i = Some pc -> finished pc = false ->
  forall k j pk pj,
    <[i := pc']> (workers g) !! k = Some pk ->
    <[i := pc']> (workers g) !! j = Some pj ->
    finished pk = false -> finished pj = false -> k = j.
Proof.
  intros HI Hi Hf k j pk pj Hk Hj Hfk Hfj.
  assert (Hall : forall n pn, <[i := pc']> (workers g) !! n = Some pn ->
                              finished pn = false -> n = i).
  { intros n pn Hn Hfn. apply list_lookup_insert_Some in Hn.
    destruct Hn as [(-> & _) | (Hne & Hn)]; [reflexivity|].
    rewrite (others_done g i pc HI Hi Hf n pn) in Hfn by done. discriminate. }
  rewrite (Hall k pk Hk Hfk), (Hall j pj Hj Hfj). reflexivity.
Qed.

Lemma shown_after
    (g : Global P) (i : nat) (pc pc' : worker_pc) (sh' : list (nat * string)) :
  Inv g -> workers g !! i = Some pc ->
  deliveries i sh' = delivered_by pc' ->
  (forall k, k <> i -> deliveries k sh' = deliveries k (shown g)) ->
  forall k, deliveries k sh'
            = match <[i := pc']> (workers g) !! k with
              | Some pk => delivered_by pk
              | None => 0
              end.
Proof.
  intros HI Hi Hnew Hother k.
  pose proof (lookup_lt_Some _ _ _ Hi) as Hlen.
  destruct (decide (k = i)) as [->|Hne].
  - rewrite list_lookup_insert_eq by exact Hlen. exact Hnew.
  - rewrite list_lookup_insert_ne by done. rewrite Hother by exact Hne.
    apply (inv_shown g HI).
Qed.

Lemma Inv_step (a : action) (g g' : Global P) :
  Inv g -> step a g = Some g' -> Inv g'.
Proof.
  intros HI Hstep.
  pose proof (no_worker_holds g HI) as Hnw.
  pose proof (fun i pc => others_done g i pc HI) as Hothers.
  pose proof (fun i pc pc' m' => worker_lock_after g i pc pc' m' HI) as Hwla.
  pose proof (fun i pc pc' => one_after g i pc pc' HI) as Hoa.
  pose proof (fun i pc pc' sh' => shown_after g i pc pc' sh' HI) as Hsa.
  destruct HI as [Hul Hwl Hone Hflag Hclr Hstart Hshown].
  destruct a as [|filePath language|i]; cbn [step] in Hstep.
  - destruct (ui g) eqn:Hui; try discriminate. injection Hstep as <-.
    split; cbn; rewrite ?Hui; leaf.
  - destruct (ui g) eqn:Hui; try discriminate.
    + destruct (g_mutex g) eqn:Hm; try discriminate. injection Hstep as <-.
      split; cbn; rewrite ?Hui, ?Hm; leaf.
      intros i. rewrite <- Hwl. done.
    + destruct (g_validationInProgress g) eqn:Hf; injection Hstep as <-.
      * split; cbn; rewrite ?Hui, ?Hf; leaf.
      * assert (Hm : g_mutex g = Some UiThread) by (apply Hul; done).
        assert (Hnh : forall i pc, workers g !! i = Some pc -> holds_lock pc = false).
        { apply Hnw. intros i. rewrite Hm. done. }
        split; cbn; rewrite ?Hui, ?Hf; leaf.
        -- intros i Hi. apply Hnh in Hi. done.
        -- intros _. split; [done|]. intros i pc Hi.
           specialize (Hnh i pc Hi). specialize (Hflag i pc Hi).
           destruct pc; cbn in *; try done; discriminate (Hflag eq_refl).
    + injection Hstep as <-.
      assert (Hm : g_mutex g = Some UiThread) by (apply Hul; done).
      split; cbn; rewrite ?Hui, ?Hm; leaf.
      intros i. rewrite <- Hwl, Hm. done.
    + injection Hstep as <-.
      assert (Hm : g_mutex g = Some UiThread) by (apply Hul; done).
      split; cbn; rewrite ?Hui, ?Hm; leaf.
      intros i. rewrite <- Hwl, Hm. done.
    + injection Hstep as <-.
      destruct (Hstart eq_refl) as [Hf Hfin].
      split; cbn; rewrite ?Hui, ?Hf; leaf.
      * intros i. rewrite Hwl. split; intros (pc & Hi & Hh).
        -- exists pc. split; [apply lookup_app_l_Some; exact Hi | exact Hh].
        -- apply lookup_snoc_Some in Hi. destruct Hi as [(_ & Hi) | (_ & <-)].
           ++ eauto.
           ++ discriminate.
      * intros i j pi pj Hi Hj Hfi Hfj.
        apply lookup_snoc_Some in Hi, Hj.
        destruct Hi as [(_ & Hi) | (-> & _)].
        { apply Hfin in Hi. congruence. }
        destruct Hj as [(_ & Hj) | (-> & _)].
        { apply Hfin in Hj. congruence. }
        reflexivity.
      * intros i Hi. apply lookup_snoc_Some in Hi.
        destruct Hi as [(_ & Hi) | (_ & Hi)]; [|discriminate].
        apply Hfin in Hi. discriminate.
      * intros i. rewrite Hshown.
        destruct (decide (i < length (workers g))) as [Hlt|Hge].
        -- rewrite lookup_app_l by exact Hlt. reflexivity.
        -- rewrite (lookup_ge_None_2 (workers g) i) by lia.
           destruct (decide (i = length (workers g))) as [->|Hne].
           ++ rewrite list_lookup_middle by reflexivity. reflexivity.
           ++ rewrite lookup_ge_None_2; [reflexivity|].
              rewrite length_app. cbn. lia.
  - destruct (workers g !! i) as [pc|] eqn:Hi; [|discriminate].
    pose proof (lookup_lt_Some _ _ _ Hi) as Hlen.
    destruct pc as [filePath language| |result| | | |].
    + destruct (validation_result P filePath language (sys g))
        as [[m|e|] s']; [|discriminate|]; injection Hstep as <-.
      {
        assert (Hm : g_mutex g <> Some (Worker i)).
        { rewrite Hwl, Hi. intros (pk & [= <-] & H). discriminate. }
        assert (Hnot_starting : starting (ui g) = true -> False).
        { intros Hs. destruct (Hstart Hs) as [_ Hfin].
          apply Hfin in Hi. discriminate. }
        split; cbn.
        * exact Hul.
        * apply (Hwla i _ _ _ Hi); [done | | ].
          -- split; [done | discriminate].
          -- intros k Hne Hk. apply Hwl in Hk. destruct Hk as (pk & Hk & H).
             rewrite (Hothers _ _ Hi eq_refl k pk Hne Hk) in H. discriminate.
        * exact (Hoa i _ _ Hi eq_refl).
        * intros k pk Hk Hproc. apply (Hflag i _ Hi). done.
        * intros k Hk. apply list_lookup_insert_Some in Hk.
          destruct Hk as [(_ & [=] & _) | (_ & Hk)]. exact (Hclr k Hk).
        * intros Hs. destruct (Hnot_starting Hs).
        * apply (Hsa i _ _ _ Hi).
          -- rewrite Hshown, Hi. reflexivity.
          -- reflexivity.
      }
      {
        assert (Hm : g_mutex g <> Some (Worker i)).
        { rewrite Hwl, Hi. intros (pk & [= <-] & H). discriminate. }
        assert (Hnot_starting : starting (ui g) = true -> False).
        { intros Hs. destruct (Hstart Hs) as [_ Hfin].
          apply Hfin in Hi. discriminate. }
        split; cbn.
        * exact Hul.
        * apply (Hwla i _ _ _ Hi); [done | | ].
          -- split; [done | discriminate].
          -- intros k Hne Hk. apply Hwl in Hk. destruct Hk as (pk & Hk & H).
             rewrite (Hothers _ _ Hi eq_refl k pk Hne Hk) in H. discriminate.
        * exact (Hoa i _ _ Hi eq_refl).
        * intros k pk Hk Hproc. apply (Hflag i _ Hi). done.
        * intros k Hk. apply list_lookup_insert_Some in Hk.
          destruct Hk as [(_ & [=] & _) | (_ & Hk)]. exact (Hclr k Hk).
        * intros Hs. destruct (Hnot_starting Hs).
        * apply (Hsa i _ _ _ Hi).
          -- rewrite Hshown, Hi. reflexivity.
          -- reflexivity.
      }
    + discriminate.
    + destruct (pumping (ui g)) eqn:Hp; [|discriminate]. injection Hstep as <-.
      assert (Hm : g_mutex g <> Some (Worker i)).
      { rewrite Hwl, Hi. intros (pk & [= <-] & H). discriminate. }
      assert (Hnot_starting : starting (ui g) = true -> False).
      { intros Hs. destruct (Hstart Hs) as [_ Hfin].
        apply Hfin in Hi. discriminate. }
      split; cbn.
      * exact Hul.
      * apply (Hwla i _ _ _ Hi); [done | | ].
        -- split; [done | discriminate].
        -- intros k Hne Hk. apply Hwl in Hk. destruct Hk as (pk & Hk & H).
           rewrite (Hothers _ _ Hi eq_refl k pk Hne Hk) in H. discriminate.
      * exact (Hoa i _ _ Hi eq_refl).
      * intros k pk Hk Hproc. apply (Hflag i _ Hi). done.
      * intros k Hk. apply list_lookup_insert_Some in Hk.
        destruct Hk as [(_ & [=] & _) | (_ & Hk)]. exact (Hclr k Hk).
      * intros Hs. destruct (Hnot_starting Hs).
      * apply (Hsa i _ _ _ Hi).
        -- rewrite deliveries_snoc, Hshown, Hi. cbn.
           destruct (decide (i = i)); done.
        -- intros k Hne. rewrite deliveries_snoc.
           destruct (decide (i = k)); [congruence | lia].
    + destruct (g_mutex g) eqn:Hm; [discriminate|]. injection Hstep as <-.
      assert (Hnot_starting : starting (ui g) = true -> False).
      { intros Hs. destruct (Hstart Hs) as [_ Hfin].
        apply Hfin in Hi. discriminate. }
      split; cbn.
      * rewrite Hul. done.
      * apply (Hwla i _ _ _ Hi); [done | | ].
        -- done.
        -- intros k Hne [= ->]. done.
      * exact (Hoa i _ _ Hi eq_refl).
      * intros k pk Hk Hproc. apply (Hflag i _ Hi). done.
      * intros k Hk. apply list_lookup_insert_Some in Hk.
        destruct Hk as [(_ & [=] & _) | (_ & Hk)]. exact (Hclr k Hk).
      * intros Hs. destruct (Hnot_starting Hs).
      * apply (Hsa i _ _ _ Hi).
        -- rewrite Hshown, Hi. reflexivity.
        -- reflexivity.
    + injection Hstep as <-.
      assert (Hm : g_mutex g = Some (Worker i)).
      { apply Hwl. eauto. }
      assert (Hnot_starting : starting (ui g) = true -> False).
      { intros Hs. destruct (Hstart Hs) as [_ Hfin].
        apply Hfin in Hi. discriminate. }
      split; cbn.
      * exact Hul.
      * apply (Hwla i _ _ _ Hi); [done | | ].
        -- rewrite Hm. done.
        -- intros k Hne. rewrite Hm. intros [= ->]. done.
      * exact (Hoa i _ _ Hi eq_refl).
      * intros k pk Hk Hproc. apply list_lookup_insert_Some in Hk.
        destruct Hk as [(_ & <- & _) | (Hne & Hk)]; [discriminate|].
        rewrite (Hothers _ _ Hi eq_refl k pk (not_eq_sym Hne) Hk) in Hproc.
        discriminate.
      * intros k Hk. reflexivity.
      * intros Hs. destruct (Hnot_starting Hs).
      * apply (Hsa i _ _ _ Hi).
        -- rewrite Hshown, Hi. reflexivity.
        -- reflexivity.
    + injection Hstep as <-.
      assert (Hm : g_mutex g = Some (Worker i)).
      { apply Hwl. eauto. }
      assert (Hnot_starting : starting (ui g) = true -> False).
      { intros Hs. destruct (Hstart Hs) as [_ Hfin].
        apply Hfin in Hi. discriminate. }
      split; cbn.
      * rewrite Hul, Hm. done.
      * apply (Hwla i _ _ _ Hi); [done | | ].
        -- done.
        -- done.
      * exact (Hoa i _ _ Hi eq_refl).
      * intros k pk Hk Hproc. apply list_lookup_insert_Some in Hk.
        destruct Hk as [(_ & <- & _) | (Hne & Hk)]; [discriminate|].
        rewrite (Hothers _ _ Hi eq_refl k pk (not_eq_sym Hne) Hk) in Hproc.
        discriminate.
      * intros k Hk. apply list_lookup_insert_Some in Hk.
        destruct Hk as [(_ & [=] & _) | (_ & Hk)]. exact (Hclr k Hk).
      * intros Hs. destruct (Hnot_starting Hs).
      * apply (Hsa i _ _ _ Hi).
        -- rewrite Hshown, Hi. reflexivity.
        -- reflexivity.
    + discriminate.
Qed.

Lemma run_app (tr1 tr2 : list action) (g : Global P) :
  run (tr1 ++ tr2) g
  = match run tr1 g with
    | Some g1 => run tr2 g1
    | None => None
    end.
Proof.
  revert g. induction tr1 as [|a tr1 IH]; intros g; cbn; [reflexivity|].
  destruct (step a g); [apply IH | reflexivity].
Qed.

Lemma Inv_run (tr : list action) :
  forall g g' : Global P, Inv g -> run tr g = Some g' -> Inv g'.
Proof.
  induction tr as [|a tr IH]; intros g g' HI Hrun; cbn in Hrun.
  - injection Hrun as <-. exact HI.
  - destruct (step a g) as [g1|] eqn:Hstep; [|discriminate].
    exact (IH g1 g' (Inv_step a g g1 HI Hstep) Hrun).
Qed.

Lemma reachable_Inv (g : Global P) : reachable g -> Inv g.
Proof. intros (w & tr & Hrun). exact (Inv_run tr _ _ (Inv_init w) Hrun). Qed.

Lemma reachable_run (tr : list action) (g g' : Global P) :
  reachable g -> run tr g = Some g' -> reachable g'.
Proof.
  intros (w & tr0 & Hrun0) Hrun. exists w, (tr0 ++ tr).
  rewrite run_app, Hrun0. exact Hrun.
Qed.

(** Only the two guarded statements change the flag. *)
Lemma flag_changes_only_guarded (a : action) (g g' : Global P) :
  step a g = Some g' ->
  g_validationInProgress g' <> g_validationInProgress g ->
  accesses_flag a g = true.
Proof.
  intros Hstep Hne. destruct a as [|filePath language|i]; cbn in *.
  - destruct (ui g); try discriminate. injection Hstep as <-. done.
  - destruct (ui g); try discriminate; try reflexivity.
    + destruct (g_mutex g); try discriminate. injection Hstep as <-. done.
    + injection Hstep as <-. done.
    + injection Hstep as <-. done.
    + injection Hstep as <-. done.
  - destruct (workers g !! i) as [pc|]; [|discriminate].
    destruct pc as [filePath language| |result| | | |]; try discriminate;
      try reflexivity.
    + destruct (validation_result P filePath language (sys g))
        as [[m|e|] s']; [|discriminate|]; injection Hstep as <-; done.
    + destruct (pumping (ui g)); [|discriminate]. injection Hstep as <-. done.
    + destruct (g_mutex g); [discriminate|]. injection Hstep as <-. done.
    + injection Hstep as <-. done.
Qed.

Lemma guarded_access_holds_lock (a : action) (g : Global P) :
  Inv g -> accesses_flag a g = true -> g_mutex g = Some (actor a).
Proof.
  intros HI Hacc. destruct a as [|filePath language|i]; cbn in *.
  - discriminate.
  - apply (inv_ui_lock g HI). destruct (ui g); try discriminate. reflexivity.
  - apply (inv_worker_lock g HI).
    destruct (workers g !! i) as [pc|]; [|discriminate].
    destruct pc; try discriminate. eauto.
Qed.

(** *** A validation thread always runs to its end *)

Lemma lookup_set_worker_eq (g : Global P) (i : nat) (pc pc' : worker_pc) :
  workers g !! i = Some pc -> workers (set_worker i pc' g) !! i = Some pc'.
Proof.
  intros Hi. cbn. apply list_lookup_insert_eq. exact (lookup_lt_Some _ _ _ Hi).
Qed.

Lemma finish_from_cleared (g : Global P) (i : nat) :
  workers g !! i = Some WCleared ->
  exists g', run [Wk i] g = Some g'
             /\ workers g' !! i = Some WDone
             /\ g_validationInProgress g' = g_validationInProgress g.
Proof.
  intros Hi. cbn [run step]. rewrite Hi. eexists. split; [reflexivity|].
  split; [exact (lookup_set_worker_eq _ i _ WDone Hi) | reflexivity].
Qed.

Lemma finish_from_locked (g : Global P) (i : nat) :
  workers g !! i = Some WLocked ->
  exists g', run [Wk i; Wk i] g = Some g'
             /\ workers g' !! i = Some WDone
             /\ g_validationInProgress g' = false.
Proof.
  intros Hi. cbn [run]. cbn [step]. rewrite Hi.
  destruct (finish_from_cleared (set_worker i WCleared (set_flag false g)) i)
    as (g' & Hrun & Hdone & Hflag).
  { exact (lookup_set_worker_eq _ i _ WCleared Hi). }
  exists g'. split; [exact Hrun | split; [exact Hdone | exact Hflag]].
Qed.

Lemma finish_from_sent (g : Global P) (i : nat) :
  workers g !! i = Some WSent -> g_mutex g = None ->
  exists g', run [Wk i; Wk i; Wk i] g = Some g'
             /\ workers g' !! i = Some WDone
             /\ g_validationInProgress g' = false.
Proof.
  intros Hi Hm. cbn [run]. cbn [step]. rewrite Hi, Hm.
  apply finish_from_locked.
  exact (lookup_set_worker_eq _ i _ WLocked Hi).
Qed.

Lemma finish_from_result (g : Global P) (i : nat) (result : string) :
  workers g !! i = Some (WResult result) ->
  pumping (ui g) = true -> g_mutex g = None ->
  exists g', run [Wk i; Wk i; Wk i; Wk i] g = Some g'
             /\ workers g' !! i = Some WDone
             /\ g_validationInProgress g' = false.
Proof.
  intros Hi Hp Hm. cbn [run]. cbn [step]. rewrite Hi, Hp.
  apply finish_from_sent; [|exact Hm].
  exact (lookup_set_worker_eq _ i _ WSent Hi).
Qed.

Lemma finish_from_start
    (g : Global P) (i : nat) (filePath language m : string) (s' : Sys P) :
  workers g !! i = Some (WStart filePath language) ->
  validation_result P filePath language (sys g) = (Ok m, s') ->
  pumping (ui g) = true -> g_mutex g = None ->
  exists g', run [Wk i; Wk i; Wk i; Wk i; Wk i] g = Some g'
             /\ workers g' !! i = Some WDone
             /\ g_validationInProgress g' = false.
Proof.
  intros Hi Hres Hp Hm. cbn [run]. cbn [step]. rewrite Hi, Hres.
  apply (finish_from_result _ i m); [|exact Hp|exact Hm].
  exact (lookup_set_worker_eq _ i _ (WResult m) Hi).
Qed.

(** While a job is in progress, the window thread can always get back to
    its message loop: a pending call of [validateCode] is rejected. *)
Lemma ui_returns_to_loop (g : Global P) :
  Inv g -> g_validationInProgress g = true -> starting (ui g) = false ->
  (forall j, g_mutex g <> Some (Worker j)) ->
  exists tr, run tr g = Some (set_ui UiIdle (set_mutex None g)).
Proof.
  intros HI Hf Hs Hnw.
  pose proof (inv_ui_lock g HI) as Hul.
  destruct g as [m f u ws sy sh]. cbn in *. subst f.
  destruct u; try discriminate.
  - exists []. destruct m as [[|j]|].
    + destruct Hul as [_ Hul]. discriminate (Hul eq_refl).
    + destruct (Hnw j eq_refl).
    + reflexivity.
  - exists [Ui EmptyString EmptyString; Ui EmptyString EmptyString;
            Ui EmptyString EmptyString].
    destruct m as [[|j]|].
    + destruct Hul as [_ Hul]. discriminate (Hul eq_refl).
    + destruct (Hnw j eq_refl).
    + reflexivity.
  - exists [Ui EmptyString EmptyString; Ui EmptyString EmptyString].
    reflexivity.
  - exists [Ui EmptyString EmptyString]. reflexivity.
Qed.

Lemma job_runs_to_completion (g : Global P) (i : nat) (pc : worker_pc) :
  reachable g -> workers g !! i = Some pc ->
  pc <> WHung ->
  (forall filePath language s',
      pc = WStart filePath language ->
      validation_result P filePath language (sys g) <> (Hang, s')) ->
  exists tr g',
    run tr g = Some g'
    /\ workers g' !! i = Some WDone
    /\ deliveries i (shown g') = 1
    /\ (finished pc = false -> g_validationInProgress g' = false).
Proof.
  intros Hreach Hi Hnh Hret.
  pose proof (reachable_Inv g Hreach) as HI.
  assert (Hgoal : exists tr g', run tr g = Some g'
                                /\ workers g' !! i = Some WDone
                                /\ (finished pc = false ->
                                    g_validationInProgress g' = false)).
  { destruct (holds_lock pc) eqn:Hh; [|destruct (finished pc) eqn:Hfin].
    - destruct pc; try discriminate.
      + destruct (finish_from_locked g i Hi) as (g' & Hrun & Hdone & Hflag).
        eauto 6.
      + destruct (finish_from_cleared g i Hi) as (g' & Hrun & Hdone & Hflag).
        exists [Wk i], g'. split; [exact Hrun | split; [exact Hdone|]].
        intros _. rewrite Hflag. exact (inv_cleared g HI i Hi).
    - destruct pc; try discriminate. exists [], g. split; [reflexivity|].
      split; [exact Hi | discriminate].
    - assert (Hflag : g_validationInProgress g = true).
      { apply (inv_flag g HI i pc Hi). destruct pc; try discriminate; reflexivity. }
      assert (Hs : starting (ui g) = false).
      { destruct (starting (ui g)) eqn:Hs; [|reflexivity].
        destruct (inv_starting g HI Hs) as [_ Hall].
        rewrite (Hall i pc Hi) in Hfin. discriminate. }
      assert (Hnw : forall j, g_mutex g <> Some (Worker j)).
      { intros j Hj. apply (inv_worker_lock g HI) in Hj.
        destruct Hj as (pj & Hj & Hhj).
        assert (j = i).
        { apply (inv_one g HI j i pj pc Hj Hi); [|exact Hfin].
          destruct pj; try discriminate; reflexivity. }
        subst j. congruence. }
      destruct (ui_returns_to_loop g HI Hflag Hs Hnw) as (tr0 & Hrun0).
      assert (Hrest : exists tr1 g',
                 run tr1 (set_ui UiIdle (set_mutex None g)) = Some g'
                 /\ workers g' !! i = Some WDone
                 /\ g_validationInProgress g' = false).
      { destruct pc as [filePath language| |result| | | |]; try discriminate.
        - destruct (validation_result P filePath language (sys g))
            as [[m|e|] s'] eqn:Hres.
          + destruct (finish_from_start (set_ui UiIdle (set_mutex None g)) i
                        filePath language m s' Hi Hres eq_refl eq_refl)
              as (g' & H). eauto.
          + destruct (validation_result_never_throws P _ _ _ e s' Hres).
          + destruct (Hret filePath language s' eq_refl Hres).
        - congruence.
        - destruct (finish_from_result (set_ui UiIdle (set_mutex None g)) i
                      result Hi eq_refl eq_refl)
            as (g' & H). eauto.
        - destruct (finish_from_sent (set_ui UiIdle (set_mutex None g)) i
                      Hi eq_refl)
            as (g' & H). eauto. }
      destruct Hrest as (tr1 & g' & Hrun1 & Hdone & Hflag').
      exists (tr0 ++ tr1), g'. rewrite run_app, Hrun0.
      split; [exact Hrun1 | split; [exact Hdone | intros _; exact Hflag']]. }
  destruct Hgoal as (tr & g' & Hrun & Hdone & Hflag).
  exists tr, g'. split; [exact Hrun | split; [exact Hdone | split; [|exact Hflag]]].
  pose proof (reachable_Inv g' (reachable_run tr g g' Hreach Hrun)) as HI'.
  rewrite (inv_shown g' HI'), Hdone. reflexivity.
Qed.

(** A validation thread that reads from a command that never exits, or is
    about to, stays there whatever the other threads do. *)
Lemma stuck_step (a : action) (g g' : Global P) (i : nat) :
  Inv g -> stuck g i -> step a g = Some g' -> stuck g' i.
Proof.
  intros HI Hstuck Hstep.
  assert (Hpc : exists pc, workers g !! i = Some pc /\ finished pc = false).
  { destruct Hstuck as [H | (f & l & s' & H & _)]; eauto. }
  destruct Hpc as (pc & Hi & Hfin).
  destruct a as [|filePath language|j]; cbn [step] in Hstep.
  - destruct (ui g); try discriminate. injection Hstep as <-. exact Hstuck.
  - destruct (ui g); try discriminate.
    + destruct (g_mutex g); try discriminate. injection Hstep as <-.
      exact Hstuck.
    + destruct (g_validationInProgress g); injection Hstep as <-; exact Hstuck.
    + injection Hstep as <-. exact Hstuck.
    + injection Hstep as <-. exact Hstuck.
    + injection Hstep as <-. unfold stuck. cbn.
      destruct Hstuck as [H | (f & l & s' & H & Hres)].
      * left. apply lookup_app_l_Some. exact H.
      * right. exists f, l, s'. split; [|exact Hres].
        apply lookup_app_l_Some. exact H.
  - destruct (workers g !! j) as [pj|] eqn:Hj; [|discriminate].
    assert (Hji : j = i).
    { apply (inv_one g HI j i pj pc Hj Hi); [|exact Hfin].
      destruct pj; try discriminate Hstep; reflexivity. }
    subst j. rewrite Hi in Hj. injection Hj as <-.
    destruct Hstuck as [H | (f & l & s' & H & Hres)].
    + rewrite Hi in H. injection H as ->. discriminate.
    + rewrite Hi in H. injection H as ->. rewrite Hres in Hstep.
      injection Hstep as <-. left. cbn.
      apply list_lookup_insert_eq. exact (lookup_lt_Some _ _ _ Hi).
Qed.

Lemma stuck_forever (tr : list action) :
  forall (g g' : Global P) (i : nat),
    reachable g -> stuck g i -> run tr g = Some g' ->
    deliveries i (shown g') = 0
    /\ g_validationInProgress g' = true
    /\ workers g' !! i <> Some WDone.
Proof.
  induction tr as [|a tr IH]; intros g g' i Hreach Hstuck Hrun; cbn in Hrun.
  - injection Hrun as <-. pose proof (reachable_Inv g Hreach) as HI.
    rewrite (inv_shown g HI).
    destruct Hstuck as [H | (f & l & s' & H & _)]; rewrite H;
      (split; [reflexivity | split; [|discriminate]]);
      apply (inv_flag g HI i _ H); reflexivity.
  - destruct (step a g) as [g1|] eqn:Hstep; [|discriminate].
    apply (IH g1 g' i); [| |exact Hrun].
    + apply (reachable_run [a] g g1 Hreach). cbn. rewrite Hstep. reflexivity.
    + exact (stuck_step a g g1 i (reachable_Inv g Hreach) Hstuck Hstep).
Qed.

(** C1: in every state the program can reach, at most one validation thread
    is unfinished, and none is while the window thread is between setting
    the flag and starting the thread it announces; a call of [validateCode]
    that finds the flag set shows its message box and returns, leaving the
    flag, the threads, the machine and the outcomes shown as they were (so
    what the running job will deliver is not touched); and the flag is read
    and written only by a thread that holds [g_mutex]: the test and the set
    on entry by the window thread, the clear on exit by the validation
    thread. *)
Theorem single_flight (g : Global P) :
  reachable g ->
  (forall i j pi pj,
      workers g !! i = Some pi -> workers g !! j = Some pj ->
      finished pi = false -> finished pj = false -> i = j)
  /\ (starting (ui g) = true ->
      forall i pc, workers g !! i = Some pc -> finished pc = true)
  /\ (ui g = UiLocked -> g_validationInProgress g = true ->
      forall f1 l1 f2 l2,
        run [Ui f1 l1; Ui f2 l2] g = Some (set_ui UiIdle (set_mutex None g)))
  /\ (forall a, accesses_flag a g = true -> g_mutex g = Some (actor a))
  /\ (forall a g',
        step a g = Some g' ->
        g_validationInProgress g' <> g_validationInProgress g ->
        accesses_flag a g = true).
Proof.
  intros Hreach. pose proof (reachable_Inv g Hreach) as HI.
  split; [exact (inv_one g HI) | split; [|split; [|split]]].
  - intros Hs. exact (proj2 (inv_starting g HI Hs)).
  - intros Hui Hf f1 l1 f2 l2.
    destruct g as [m f u ws sy sh]. cbn in *. subst u f. reflexivity.
  - intros a. exact (guarded_access_holds_lock a g HI).
  - intros a g'. exact (flag_changes_only_guarded a g g').
Qed.

(** Where every command exits, no validation thread is ever left reading. *)
Lemma terminating_never_hung (g : Global P) :
  terminating P -> reachable g -> forall i, workers g !! i <> Some WHung.
Proof.
  intros Hterm (w & tr & Hrun).
  assert (Hgen : forall tr (g0 g1 : Global P),
             (forall i, workers g0 !! i <> Some WHung) ->
             run tr g0 = Some g1 ->
             forall i, workers g1 !! i <> Some WHung).
  { clear tr Hrun. induction tr as [|a tr IH]; intros g0 g1 H0 Hrun;
      cbn in Hrun.
    - injection Hrun as <-. exact H0.
    - destruct (step a g0) as [g2|] eqn:Hstep; [|discriminate].
      apply (IH g2 g1); [|exact Hrun]. clear IH Hrun.
      assert (Hins : forall j pc' (g3 : Global P),
                 pc' <> WHung ->
                 forall i, workers (set_worker j pc' g3) !! i = Some WHung ->
                           workers g3 !! i = Some WHung).
      { intros j pc' g3 Hne i0 H. cbn in H.
        destruct (decide (j = i0)) as [->|Hji].
        - destruct (decide (i0 < length (workers g3))) as [Hlt|Hge].
          + rewrite list_lookup_insert_eq in H by exact Hlt. congruence.
          + rewrite list_insert_ge in H by lia. exact H.
        - rewrite list_lookup_insert_ne in H by exact Hji. exact H. }
      destruct a as [|filePath language|j]; cbn [step] in Hstep.
      + destruct (ui g0); try discriminate. injection Hstep as <-. exact H0.
      + destruct (ui g0); try discriminate.
        * destruct (g_mutex g0); try discriminate. injection Hstep as <-.
          exact H0.
        * destruct (g_validationInProgress g0); injection Hstep as <-;
            exact H0.
        * injection Hstep as <-. exact H0.
        * injection Hstep as <-. exact H0.
        * injection Hstep as <-. intros i H. cbn in H.
          destruct (decide (i < length (workers g0))) as [Hlt|Hge].
          -- rewrite lookup_app_l in H by exact Hlt. exact (H0 i H).
          -- rewrite lookup_app_r in H by lia.
             destruct (i - length (workers g0)) as [|[|n]]; discriminate.
      + destruct (workers g0 !! j) as [pj|] eqn:Hj; [|discriminate].
        destruct pj as [filePath language| |result| | | |]; try discriminate.
        * destruct (validation_result_returns P filePath language (sys g0)
                      Hterm) as (m & s' & Hres).
          rewrite Hres in Hstep. injection Hstep as <-.
          intros i H. apply Hins in H; [exact (H0 i H) | discriminate].
        * destruct (pumping (ui g0)); try discriminate.
          injection Hstep as <-.
          intros i H. apply Hins in H; [exact (H0 i H) | discriminate].
        * destruct (g_mutex g0); try discriminate. injection Hstep as <-.
          intros i H. apply Hins in H; [exact (H0 i H) | discriminate].
        * injection Hstep as <-.
          intros i H. apply Hins in H; [exact (H0 i H) | discriminate].
        * injection Hstep as <-.
          intros i H. apply Hins in H; [exact (H0 i H) | discriminate]. }
  apply (Hgen tr (init P w) g); [|exact Hrun].
  intros i H. destruct i; discriminate.
Qed.

(** C2: the [try] statement of the validation thread never lets an
    exception out, whatever is thrown inside it; in every reachable state a
    validation thread has delivered no outcome before its [SendMessage] and
    exactly one after it, and the flag is still set as long as it has
    delivered none.  A thread that is not reading from a command that never
    exits, and whose validation returns if it has not run yet, can always be
    run to its end, where it has delivered exactly one outcome and has
    cleared the flag; this is every thread where every command exits.  A
    thread whose command never exits delivers no outcome, never finishes
    and leaves the flag set, whatever steps are taken. *)
Theorem one_outcome_then_release (g : Global P) (i : nat) (pc : worker_pc) :
  reachable g -> workers g !! i = Some pc ->
  (forall filePath language s e s',
      validation_result P filePath language s <> (Throw e, s'))
  /\ deliveries i (shown g) = delivered_by pc
  /\ (delivered_by pc = 0 -> g_validationInProgress g = true)
  /\ (pc <> WHung ->
      (forall filePath language s',
          pc = WStart filePath language ->
          validation_result P filePath language (sys g) <> (Hang, s')) ->
      exists tr g',
        run tr g = Some g'
        /\ workers g' !! i = Some WDone
        /\ deliveries i (shown g') = 1
        /\ (finished pc = false -> g_validationInProgress g' = false))
  /\ (terminating P ->
      exists tr g',
        run tr g = Some g'
        /\ workers g' !! i = Some WDone
        /\ deliveries i (shown g') = 1
        /\ (finished pc = false -> g_validationInProgress g' = false))
  /\ (stuck g i ->
      forall tr g',
        run tr g = Some g' ->
        deliveries i (shown g') = 0
        /\ g_validationInProgress g' = true
        /\ workers g' !! i <> Some WDone).
Proof.
  intros Hreach Hi. pose proof (reachable_Inv g Hreach) as HI.
  split; [exact (validation_result_never_throws P) |].
  split; [|split; [|split; [|split]]].
  - rewrite (inv_shown g HI), Hi. reflexivity.
  - intros Hd. apply (inv_flag g HI i pc Hi).
    destruct pc; try discriminate; reflexivity.
  - exact (job_runs_to_completion g i pc Hreach Hi).
  - intros Hterm. apply (job_runs_to_completion g i pc Hreach Hi).
    + intros ->. exact (terminating_never_hung g Hterm Hreach i Hi).
    + intros filePath language s' _ Hres.
      destruct (validation_result_returns P filePath language (sys g) Hterm)
        as (m & s1 & Hok).
      congruence.
  - intros Hstuck tr g'. exact (stuck_forever tr g g' i Hreach Hstuck).
Qed.

End JobProperties.


Lemma single_flight_witness :
  let P := scripted ["x.py"] accepting_tools in
  let busy : Global P :=
    {| g_mutex := Some UiThread; g_validationInProgress := true;
       ui := UiLocked; workers := [WStart "x.py" "Python"];
       sys := start_sys P tt; shown := [] |} in
  run [Validate; Ui EmptyString EmptyString; Ui EmptyString EmptyString;
       Ui EmptyString EmptyString; Ui "x.py" "Python";
       Validate; Ui "y.py" "Python"] (init P tt) = Some busy
  /\ run [Ui "y.py" "Python"; Ui "y.py" "Python"] busy
     = Some (set_ui UiIdle (set_mutex None busy)).
Proof.
  intros P busy.
  assert (Hrun : run [Validate; Ui EmptyString EmptyString;
                      Ui EmptyString EmptyString; Ui EmptyString EmptyString;
                      Ui "x.py" "Python"; Validate; Ui "y.py" "Python"]
                   (init P tt) = Some busy) by reflexivity.
  split; [exact Hrun|].
  destruct (single_flight P busy) as (_ & _ & Hreject & _).
  - exists tt. eexists. exact Hrun.
  - exact (Hreject eq_refl eq_refl "y.py" "Python" "y.py" "Python").
Defined.

Lemma one_outcome_then_release_witness :
  let P := scripted ["x.py"] accepting_tools in
  let accepted : Global P :=
    {| g_mutex := None; g_validationInProgress := true;
       ui := UiIdle; workers := [WStart "x.py" "Python"];
       sys := start_sys P tt; shown := [] |} in
  run [Validate; Ui EmptyString EmptyString; Ui EmptyString EmptyString;
       Ui EmptyString EmptyString; Ui "x.py" "Python"] (init P tt)
  = Some accepted
  /\ deliveries 0 (shown accepted) = 0
  /\ exists tr g',
       run tr accepted = Some g'
       /\ workers g' !! 0 = Some WDone
       /\ deliveries 0 (shown g') = 1
       /\ g_validationInProgress g' = false.
Proof.
  intros P accepted.
  assert (Hrun : run [Validate; Ui EmptyString EmptyString;
                      Ui EmptyString EmptyString; Ui EmptyString EmptyString;
                      Ui "x.py" "Python"] (init P tt) = Some accepted)
    by reflexivity.
  split; [exact Hrun|].
  destruct (one_outcome_then_release P accepted 0 (WStart "x.py" "Python"))
    as (_ & Hcount & _ & Hprogress & _).
  - exists tt. eexists. exact Hrun.
  - reflexivity.
  - split; [exact Hcount|].
    destruct Hprogress as (tr & g' & Hfinal & Hdone & Hone & Hflag).
    + discriminate.
    + intros filePath language s' Heq. injection Heq as <- <-.
      vm_compute. discriminate.
    + exists tr, g'. split; [exact Hfinal | split; [exact Hdone|]].
      split; [exact Hone | exact (Hflag eq_refl)].
Defined.

(** The counterexample to C2 as stated: [loop.py] passes the syntax check,
    and its run never exits.  The job is accepted, and in no state that
    follows has it delivered an outcome, finished, or cleared the flag. *)
Lemma hung_job_delivers_nothing :
  let P := scripted ["loop.py"] looping_tools in
  let accepted : Global P :=
    {| g_mutex := None; g_validationInProgress := true;
       ui := UiIdle; workers := [WStart "loop.py" "Python"];
       sys := start_sys P tt; shown := [] |} in
  run [Validate; Ui EmptyString EmptyString; Ui EmptyString EmptyString;
       Ui EmptyString EmptyString; Ui "loop.py" "Python"] (init P tt)
  = Some accepted
  /\ launched (snd (validation_result P "loop.py" "Python" (sys accepted)))
     = ["python -m py_compile " +:+ escape_spec "loop.py" +:+ " 2>&1";
        "python " +:+ escape_spec "loop.py" +:+ " 2>&1"]
  /\ forall tr g',
       run tr accepted = Some g' ->
       deliveries 0 (shown g') = 0
       /\ g_validationInProgress g' = true
       /\ workers g' !! 0 <> Some WDone.
Proof.
  intros P accepted.
  assert (Hrun : run [Validate; Ui EmptyString EmptyString;
                      Ui EmptyString EmptyString; Ui EmptyString EmptyString;
                      Ui "loop.py" "Python"] (init P tt) = Some accepted)
    by reflexivity.
  split; [exact Hrun | split; [vm_compute; reflexivity|]].
  intros tr g'. apply (stuck_forever P tr accepted g' 0).
  - exists tt. eexists. exact Hrun.
  - right. eexists "loop.py", "Python", _. split; [reflexivity|].
    vm_compute. reflexivity.
Qed.

(** ** More on the command layer *)

Lemma executeCommand_launched (P : Platform) (command : string) (s : Sys P) :
  launched (snd (executeCommand P command s)) = launched s ++ [command].
Proof.
  unfold executeCommand. destruct (popen P command (world s)) as [p w].
  destruct p; reflexivity.
Qed.

(** The commands started by a check phase followed, when the check output
    is not fatal, by a run phase. *)
Lemma two_phase_launched
    (P : Platform) (check run : string) (fatal : string -> bool)
    (heading : string) (s : Sys P) :
  let outcome :=
    bind (executeCommand P check)
      (fun out =>
         if fatal out
         then ret (heading +:+ nl +:+ out)
         else bind (executeCommand P run)
                   (fun runResult => ret (success_banner +:+ runResult))) s in
  (launched (snd outcome) = launched s ++ [check]
   \/ launched (snd outcome) = launched s ++ [check; run])
  /\ forall m, fst outcome = Ok m ->
               String.prefix heading m = true
               \/ String.prefix "Compilation successful." m = true.
Proof.
  cbv zeta. unfold bind.
  pose proof (executeCommand_launched P check s) as H1.
  destruct (executeCommand P check s) as [[out|e|] s1]; cbn [snd] in H1.
  - destruct (fatal out).
    + cbn. split; [left; exact H1|].
      intros m [= <-]. left.
      clear. induction heading as [|c h IH]; simpl.
      * reflexivity.
      * destruct (ascii_dec c c); [exact IH | congruence].
    + pose proof (executeCommand_launched P run s1) as H2.
      destruct (executeCommand P run s1) as [[r|e|] s2]; cbn [snd] in H2;
        cbn; rewrite H2, H1, <- app_assoc.
      * split; [right; reflexivity|]. intros m [= <-]. right. reflexivity.
      * split; [right; reflexivity|]. intros m [=].
      * split; [right; reflexivity|]. intros m [=].
  - cbn. split; [left; exact H1 | intros m [=]].
  - cbn. split; [left; exact H1 | intros m [=]].
Qed.

(** X1: whatever the tools do (print, fail to start, or make the read
    throw), a validator starts its check command first and at most one more
    command, its run command; it starts no other command. *)
Theorem validate_starts_check_then_run
    (P : Platform) (filePath : string) (s : Sys P)
    (validator : LanguageValidator P) (check run heading : string) :
  In (validator, check, run, heading) (validator_table P filePath) ->
  launched (snd (validate validator filePath s)) = launched s ++ [check]
  \/ launched (snd (validate validator filePath s)) = launched s ++ [check; run].
Proof.
  intros Hin.
  destruct (validate_two_phase P filePath validator check run heading Hin)
    as (fatal & Hv).
  rewrite Hv. exact (proj1 (two_phase_launched P check run fatal heading s)).
Qed.

Lemma validate_starts_check_then_run_witness :
  let P := scripted ["hello.py"] accepting_tools in
  launched (snd (validate (PythonValidator P) "hello.py" (start_sys P tt)))
  = ["python -m py_compile " +:+ escape_spec "hello.py" +:+ " 2>&1";
     "python " +:+ escape_spec "hello.py" +:+ " 2>&1"].
Proof.
  intros P.
  destruct (validate_starts_check_then_run P "hello.py" (start_sys P tt)
              (PythonValidator P)
              ("python -m py_compile " +:+ escape_spec "hello.py" +:+ " 2>&1")
              ("python " +:+ escape_spec "hello.py" +:+ " 2>&1")
              "Syntax errors:") as [H|H].
  - right. left. reflexivity.
  - vm_compute in H. discriminate H.
  - exact H.
Defined.

(** X2: every message a validator returns begins with its error heading or
    with the success banner. *)
Theorem validate_message_headed
    (P : Platform) (filePath : string) (s : Sys P)
    (validator : LanguageValidator P) (check run heading m : string) :
  In (validator, check, run, heading) (validator_table P filePath) ->
  fst (validate validator filePath s) = Ok m ->
  String.prefix heading m = true
  \/ String.prefix "Compilation successful." m = true.
Proof.
  intros Hin.
  destruct (validate_two_phase P filePath validator check run heading Hin)
    as (fatal & Hv).
  rewrite Hv. exact (proj2 (two_phase_launched P check run fatal heading s) m).
Qed.

Lemma validate_message_headed_witness :
  let P := scripted ["bad.php"] rejecting_tools in
  String.prefix "Syntax errors:"
    ("Syntax errors:" +:+ nl
     +:+ "PHP Parse error: syntax error in bad.php on line 1" +:+ nl) = true
  \/ String.prefix "Compilation successful."
       ("Syntax errors:" +:+ nl
        +:+ "PHP Parse error: syntax error in bad.php on line 1" +:+ nl) = true.
Proof.
  intros P.
  apply (validate_message_headed P "bad.php" (start_sys P tt) (PHPValidator P)
           ("php -l " +:+ escape_spec "bad.php" +:+ " 2>&1")
           ("php " +:+ escape_spec "bad.php" +:+ " 2>&1")).
  - right. right. left. reflexivity.
  - reflexivity.
Defined.

(** ** More on selection and on the job *)

Lemma validation_result_state
    (P : Platform) (filePath language : string) (s : Sys P) :
  snd (validation_result P filePath language s)
  = snd (validation_try P filePath language s).
Proof.
  unfold validation_result, try_catch.
  destruct (validation_try P filePath language s) as [[m|e|] s'];
    [reflexivity | destruct e; reflexivity | reflexivity].
Qed.

(** The job either leaves the state as it is or hands over to a validator
    that accepts the file. *)
Lemma validation_try_cases
    (P : Platform) (filePath language : string) (s : Sys P) :
  snd (validation_try P filePath language s) = s
  \/ (filePath <> EmptyString
      /\ fs_exists P filePath (world s) = Ok true
      /\ exists validator,
           getValidator P language filePath = Some validator
           /\ isCompatible validator filePath = true
           /\ validation_try P filePath language s
              = validate validator filePath s).
Proof.
  unfold validation_try.
  destruct filePath as [|c filePath]; [left; reflexivity|].
  cbn [empty]. unfold bind at 1, exists_.
  destruct (fs_exists P (String c filePath) (world s)) as [found|e|] eqn:Hex;
    [|left; reflexivity|left; reflexivity].
  destruct found; cbn [negb]; [|left; reflexivity].
  destruct (getValidator P language (String c filePath)) as [v|] eqn:Hget;
    [|left; reflexivity].
  destruct (isCompatible v (String c filePath)) eqn:Hc; cbn [negb];
    [|left; reflexivity].
  right. split; [discriminate | split; [reflexivity|]].
  exists v. split; [reflexivity | split; [exact Hc|]].
  unfold bind, exists_. rewrite Hex. reflexivity.
Qed.

(** X3: a job starts at most two commands, and it starts one only for a
    path that is not empty and names an existing file, with a validator
    selected that accepts the extension of the file. *)
Theorem job_starts_commands_only_when_compatible
    (P : Platform) (filePath language : string) (s : Sys P) :
  (exists commands,
      launched (snd (validation_result P filePath language s))
      = launched s ++ commands
      /\ length commands <= 2)
  /\ (launched (snd (validation_result P filePath language s)) <> launched s ->
      filePath <> EmptyString
      /\ fs_exists P filePath (world s) = Ok true
      /\ exists validator,
           getValidator P language filePath = Some validator
           /\ isCompatible validator filePath = true).
Proof.
  rewrite validation_result_state.
  destruct (validation_try_cases P filePath language s)
    as [Hs | (Hne & Hex & v & Hget & Hc & Hv)].
  - rewrite Hs. split; [|congruence].
    exists []. rewrite app_nil_r. split; [reflexivity | cbn; lia].
  - split; [|intros _; eauto].
    rewrite Hv.
    destruct (getValidator_in_table P _ _ v Hget)
      as (check & run & heading & Hin).
    destruct (validate_starts_check_then_run P _ s v check run heading Hin)
      as [H|H]; rewrite H; eexists; (split; [reflexivity | cbn; lia]).
Qed.

Lemma job_starts_commands_only_when_compatible_witness :
  let P := scripted ["hello.py"] accepting_tools in
  launched (snd (validation_result P "hello.py" "Auto-detect" (start_sys P tt)))
  <> launched (start_sys P tt)
  /\ fs_exists P "hello.py" tt = Ok true
  /\ exists validator,
       getValidator P "Auto-detect" "hello.py" = Some validator
       /\ isCompatible validator "hello.py" = true.
Proof.
  intros P.
  assert (H : launched (snd (validation_result P "hello.py" "Auto-detect"
                               (start_sys P tt)))
              <> launched (start_sys P tt)) by (vm_compute; discriminate).
  split; [exact H|].
  exact (proj2 (proj2 (job_starts_commands_only_when_compatible
                         P "hello.py" "Auto-detect" (start_sys P tt)) H)).
Defined.

(** X4: with detection by extension, the validator that is selected always
    accepts the file: whenever [getValidator] returns one for the detection
    tag, its [isCompatible] holds of the same path. *)
Theorem auto_detect_is_compatible
    (P : Platform) (filePath : string) (validator : LanguageValidator P) :
  getValidator P "Auto-detect" filePath = Some validator ->
  isCompatible validator filePath = true.
Proof.
  rewrite getValidator_auto. cbv zeta. intros H.
  destruct (String.eqb (path_extension P filePath) ".java") eqn:E1;
    [injection H as <-; exact E1|].
  destruct (String.eqb (path_extension P filePath) ".py") eqn:E2;
    [injection H as <-; exact E2|].
  destruct (String.eqb (path_extension P filePath) ".php") eqn:E3;
    [injection H as <-; exact E3|].
  destruct (String.eqb (path_extension P filePath) ".js") eqn:E4;
    [injection H as <-; exact E4 | discriminate].
Qed.

Lemma auto_detect_is_compatible_witness :
  let P := scripted [] silent_tools in
  getValidator P "Auto-detect" "app.js" = Some (JavaScriptValidator P)
  /\ isCompatible (JavaScriptValidator P) "app.js" = true.
Proof.
  intros P. split; [reflexivity|].
  exact (auto_detect_is_compatible P "app.js" (JavaScriptValidator P) eq_refl).
Defined.

(** X5: the four validators accept disjoint sets of files, and the one that
    accepts a file is the one detection selects for it. *)
Theorem compatible_validator_is_detected
    (P : Platform) (filePath : string)
    (validator : LanguageValidator P) (check run heading : string) :
  In (validator, check, run, heading) (validator_table P filePath) ->
  isCompatible validator filePath = true ->
  getValidator P "Auto-detect" filePath = Some validator.
Proof.
  intros Hin Hc. rewrite getValidator_auto. cbv zeta.
  unfold validator_table in Hin. cbn [In] in Hin.
  destruct Hin as [H|[H|[H|[H|[]]]]]; injection H as <- _ _ _;
    cbn in Hc; apply String.eqb_eq in Hc; rewrite Hc; reflexivity.
Qed.

Lemma compatible_validator_is_detected_witness :
  let P := scripted [] silent_tools in
  isCompatible (PHPValidator P) "index.php" = true
  /\ getValidator P "Auto-detect" "index.php" = Some (PHPValidator P).
Proof.
  intros P. split; [reflexivity|].
  apply (compatible_validator_is_detected P "index.php" (PHPValidator P)
           ("php -l " +:+ escape_spec "index.php" +:+ " 2>&1")
           ("php " +:+ escape_spec "index.php" +:+ " 2>&1") "Syntax errors:").
  - right. right. left. reflexivity.
  - reflexivity.
Defined.

(** X6: [getValidator] returns the null pointer exactly for the detection
    tag with an extension outside the table, and for a tag that is none of
    the five texts (the comparison is exact: case matters); the job for an
    existing file then ends with the unsupported-selection message without
    running anything. *)
Theorem unsupported_selection
    (P : Platform) (filePath language : string) (s : Sys P) :
  (getValidator P language filePath = None
   <-> (language = "Auto-detect"
        /\ ~ In (path_extension P filePath) [".java"; ".py"; ".php"; ".js"])
       \/ ~ In language ["Auto-detect"; "Java"; "Python"; "PHP"; "JavaScript"])
  /\ (filePath <> EmptyString ->
      fs_exists P filePath (world s) = Ok true ->
      getValidator P language filePath = None ->
      validation_result P filePath language s
      = (Ok "Unsupported file type or language selection.", s)).
Proof.
  split.
  - unfold getValidator. cbn [In].
    destruct (String.eqb_spec language "Auto-detect") as [->|Hauto].
    + destruct (String.eqb_spec (path_extension P filePath) ".java") as [E1|E1];
        [split; [discriminate | intros [[_ H]|H]; exfalso; apply H; auto]|].
      destruct (String.eqb_spec (path_extension P filePath) ".py") as [E2|E2];
        [split; [discriminate | intros [[_ H]|H]; exfalso; apply H; auto]|].
      destruct (String.eqb_spec (path_extension P filePath) ".php") as [E3|E3];
        [split; [discriminate | intros [[_ H]|H]; exfalso; apply H; auto]|].
      destruct (String.eqb_spec (path_extension P filePath) ".js") as [E4|E4];
        [split; [discriminate | intros [[_ H]|H]; exfalso; apply H; auto 6]|].
      split; [|reflexivity]. intros _. left. split; [reflexivity|].
      intros [H|[H|[H|[H|[]]]]]; congruence.
    + destruct (String.eqb_spec language "Java") as [->|E1];
        [split; [discriminate | intros [[H _]|H]; [congruence | exfalso; apply H; auto]]|].
      destruct (String.eqb_spec language "Python") as [->|E2];
        [split; [discriminate | intros [[H _]|H]; [congruence | exfalso; apply H; auto]]|].
      destruct (String.eqb_spec language "PHP") as [->|E3];
        [split; [discriminate | intros [[H _]|H]; [congruence | exfalso; apply H; auto 6]]|].
      destruct (String.eqb_spec language "JavaScript") as [->|E4];
        [split; [discriminate | intros [[H _]|H]; [congruence | exfalso; apply H; auto 7]]|].
      split; [|reflexivity]. intros _. right.
      intros [H|[H|[H|[H|[H|[]]]]]]; congruence.
  - intros Hne Hex Hget.
    unfold validation_result, try_catch, validation_try.
    destruct filePath as [|c filePath]; [congruence|].
    cbn [empty]. unfold bind, exists_. rewrite Hex. cbn [negb].
    rewrite Hget. reflexivity.
Qed.

Lemma unsupported_selection_witness :
  let P := scripted ["Main.java"; "x.PY"] accepting_tools in
  validation_result P "Main.java" "java" (start_sys P tt)
  = (Ok "Unsupported file type or language selection.", start_sys P tt)
  /\ validation_result P "x.PY" "Auto-detect" (start_sys P tt)
     = (Ok "Unsupported file type or language selection.", start_sys P tt).
Proof.
  intros P. split.
  - apply (proj2 (unsupported_selection P "Main.java" "java" (start_sys P tt)));
      [discriminate | reflexivity | reflexivity].
  - apply (proj2 (unsupported_selection P "x.PY" "Auto-detect" (start_sys P tt)));
      [discriminate | reflexivity | reflexivity].
Defined.

(** X7: an exception thrown inside the job is turned into the text of the
    outcome.  When the existence test throws, nothing is run; when reading
    the output of the check command throws, the outcome is the same kind of
    text, the check command is the only one started and the run phase is
    skipped. *)
Theorem exceptions_become_the_outcome
    (P : Platform) (filePath language : string) (s : Sys P) :
  filePath <> EmptyString ->
  (forall what,
      fs_exists P filePath (world s) = Throw (StdException what) ->
      validation_result P filePath language s
      = (Ok ("Error occurred during validation: " +:+ what), s))
  /\ (fs_exists P filePath (world s) = Throw OtherException ->
      validation_result P filePath language s
      = (Ok "Unknown error occurred during validation.", s))
  /\ (forall validator check run heading e w',
        fs_exists P filePath (world s) = Ok true ->
        getValidator P language filePath = Some validator ->
        isCompatible validator filePath = true ->
        In (validator, check, run, heading) (validator_table P filePath) ->
        popen P check (world s) = (PipeThrows e, w') ->
        validation_result P filePath language s
        = (Ok (match e with
               | StdException what => "Error occurred during validation: " +:+ what
               | OtherException => "Unknown error occurred during validation."
               end),
           {| world := w'; launched := launched s ++ [check] |})).
Proof.
  intros Hne. destruct filePath as [|c filePath]; [congruence|].
  split; [|split].
  - intros what Hex. unfold validation_result, try_catch, validation_try.
    cbn [empty]. unfold bind, exists_. rewrite Hex. reflexivity.
  - intros Hex. unfold validation_result, try_catch, validation_try.
    cbn [empty]. unfold bind, exists_. rewrite Hex. reflexivity.
  - intros validator check run heading e w' Hex Hget Hc Hin Hp.
    destruct (validate_two_phase P _ validator check run heading Hin)
      as (fatal & Hv).
    unfold validation_result, try_catch, validation_try.
    cbn [empty]. unfold bind at 1, exists_. rewrite Hex. cbn [negb].
    rewrite Hget, Hc. cbn [negb]. rewrite Hv.
    unfold bind at 1, executeCommand at 1. rewrite Hp.
    destruct e; reflexivity.
Qed.

Lemma exceptions_become_the_outcome_witness :
  let P := scripted ["x.py"] throwing_tools in
  let check := "python -m py_compile " +:+ escape_spec "x.py" +:+ " 2>&1" in
  validation_result locked_disk "x.py" "Python" (start_sys locked_disk tt)
  = (Ok "Error occurred during validation: exists: Access is denied.",
     start_sys locked_disk tt)
  /\ validation_result P "x.py" "Python" (start_sys P tt)
     = (Ok "Error occurred during validation: bad allocation",
        Build_Sys P tt [check]).
Proof.
  intros P check. split.
  - apply (proj1 (exceptions_become_the_outcome locked_disk "x.py" "Python"
                    (start_sys locked_disk tt) ltac:(discriminate))).
    reflexivity.
  - apply (proj2 (proj2 (exceptions_become_the_outcome P "x.py" "Python"
                           (start_sys P tt) ltac:(discriminate)))
             (PythonValidator P) check
             ("python " +:+ escape_spec "x.py" +:+ " 2>&1") "Syntax errors:"
             (StdException "bad allocation") tt);
      try reflexivity.
    right. left. reflexivity.
Defined.

(** X8: the mismatch message is the outcome exactly when the path is not
    empty, the file exists, and the selected validator does not accept its
    extension; no tool output and no exception text can take its place.  So
    with detection by extension it is never the outcome. *)
Theorem mismatch_outcome_iff
    (P : Platform) (filePath language : string) (s : Sys P) :
  (fst (validation_result P filePath language s)
   = Ok "Selected language doesn't match the file extension."
   <-> filePath <> EmptyString
       /\ fs_exists P filePath (world s) = Ok true
       /\ exists validator,
            getValidator P language filePath = Some validator
            /\ isCompatible validator filePath = false)
  /\ (language = "Auto-detect" ->
      fst (validation_result P filePath language s)
      <> Ok "Selected language doesn't match the file extension.").
Proof.
  assert (Hiff :
    fst (validation_result P filePath language s)
    = Ok "Selected language doesn't match the file extension."
    <-> filePath <> EmptyString
        /\ fs_exists P filePath (world s) = Ok true
        /\ exists validator,
             getValidator P language filePath = Some validator
             /\ isCompatible validator filePath = false).
  { unfold validation_result, try_catch, validation_try.
    destruct filePath as [|c filePath].
    { cbn. split; [discriminate | intros [H _]; congruence]. }
    cbn [empty]. unfold bind at 1, exists_.
    destruct (fs_exists P (String c filePath) (world s)) as [found|e|] eqn:Hex.
    - destruct found; cbn [negb].
      + destruct (getValidator P language (String c filePath)) as [v|] eqn:Hget.
        * destruct (isCompatible v (String c filePath)) eqn:Hc; cbn [negb].
          -- split.
             ++ intros Hm. exfalso.
                destruct (getValidator_in_table P _ _ v Hget)
                  as (check & run & heading & Hin).
                pose proof (fun m => validate_message_headed P _ s v check run
                                       heading m Hin) as Hhead.
                destruct (validate v (String c filePath) s) as [[m|e|] s'].
                ** cbn in Hm. injection Hm as ->.
                   specialize (Hhead _ eq_refl).
                   unfold validator_table in Hin. cbn [In] in Hin.
                   destruct Hin as [H|[H|[H|[H|[]]]]];
                     injection H as _ _ _ <-;
                     destruct Hhead as [Hh|Hh]; cbn in Hh; discriminate.
                ** destruct e; cbn in Hm; discriminate.
                ** cbn in Hm. discriminate.
             ++ intros (_ & _ & v' & [= <-] & Hc'). congruence.
          -- cbn. split; [intros _ | reflexivity].
             split; [discriminate | split; [reflexivity | eauto]].
        * cbn. split; [discriminate|].
          intros (_ & _ & v' & [=] & _).
      + cbn. split; [discriminate | intros (_ & [=] & _)].
    - destruct e; cbn; (split; [discriminate | intros (_ & [=] & _)]).
    - cbn. split; [discriminate | intros (_ & [=] & _)]. }
  split; [exact Hiff|].
  intros -> Hm. apply Hiff in Hm.
  destruct Hm as (_ & _ & v & Hget & Hc).
  rewrite (auto_detect_is_compatible P filePath v Hget) in Hc. discriminate.
Qed.

Lemma mismatch_outcome_iff_witness :
  let P := scripted ["x.py"] accepting_tools in
  fst (validation_result P "x.py" "Auto-detect" (start_sys P tt))
  <> Ok "Selected language doesn't match the file extension.".
Proof.
  intros P.
  exact (proj2 (mismatch_outcome_iff P "x.py" "Auto-detect" (start_sys P tt))
           eq_refl).
Defined.

(** ** More on escaping and on the command layer *)

Lemma double_backslashes_inj (a : string) :
  forall b, double_backslashes a = double_backslashes b -> a = b.
Proof.
  induction a as [|c a IH]; intros [|d b]; cbn [double_backslashes].
  - reflexivity.
  - destruct (Ascii.eqb d backslash); discriminate.
  - destruct (Ascii.eqb c backslash); discriminate.
  - destruct (Ascii.eqb c backslash) eqn:Ec, (Ascii.eqb d backslash) eqn:Ed;
      intros H.
    + apply Ascii.eqb_eq in Ec, Ed. subst c d.
      injection H as H. f_equal. exact (IH b H).
    + injection H as Hd _. apply Ascii.eqb_neq in Ed. congruence.
    + injection H as Hc _. apply Ascii.eqb_neq in Ec. congruence.
    + injection H as -> H. f_equal. exact (IH b H).
Qed.

Lemma append_cancel_r (c a : string) :
  forall b, String.length a = String.length b -> a +:+ c = b +:+ c -> a = b.
Proof.
  induction a as [|x a IH]; intros [|y b] Hlen H; simpl in *;
    try discriminate.
  - reflexivity.
  - injection H as -> H. f_equal. apply IH; [lia | exact H].
Qed.

(** X9: escaping loses nothing: two paths with the same escaped form are
    the same path. *)
Theorem escapeFilePath_injective (p1 p2 : string) :
  escapeFilePath p1 = escapeFilePath p2 -> p1 = p2.
Proof.
  rewrite !escapeFilePath_total. unfold escape_spec. intros [= H].
  apply double_backslashes_inj.
  apply (append_cancel_r str_dquote); [|exact H].
  apply (f_equal String.length) in H. rewrite !length_append in H.
  cbn in H. lia.
Qed.

Lemma escapeFilePath_injective_witness :
  escapeFilePath "C:\src\Main.java" = escapeFilePath "C:\src\Main.java"
  /\ "C:\src\Main.java" = "C:\src\Main.java".
Proof.
  split; [reflexivity|].
  exact (escapeFilePath_injective "C:\src\Main.java" "C:\src\Main.java" eq_refl).
Defined.

Lemma double_backslashes_length (s : string) :
  String.length (double_backslashes s) = String.length s + count_backslashes s.
Proof.
  induction s as [|c s IH]; [reflexivity|].
  cbn [double_backslashes count_backslashes].
  destruct (Ascii.eqb c backslash); cbn [String.length]; rewrite IH; lia.
Qed.

Lemma count_backslashes_le (s : string) : count_backslashes s <= String.length s.
Proof.
  induction s as [|c s IH]; [reflexivity|].
  cbn [count_backslashes String.length].
  destruct (Ascii.eqb c backslash); lia.
Qed.

(** X10: the escaped form is longer than the path by its number of
    backslashes and the two quotes, hence never longer than twice the path
    plus two. *)
Theorem escapeFilePath_length (path : string) :
  exists escaped,
    escapeFilePath path = Ok escaped
    /\ String.length escaped
       = String.length path + count_backslashes path + 2
    /\ String.length escaped <= 2 * String.length path + 2.
Proof.
  exists (escape_spec path). split; [apply escapeFilePath_total|].
  assert (H : String.length (escape_spec path)
              = String.length path + count_backslashes path + 2).
  { unfold escape_spec. cbn [String.length].
    rewrite length_append, double_backslashes_length. cbn. lia. }
  split; [exact H|]. pose proof (count_backslashes_le path). lia.
Qed.





(** ** More on the single-flight discipline *)

Section MoreJobProperties.

Variable P : Platform.


Lemma reachable_induction (Q : Global P -> Prop) :
  (forall w, Q (init P w)) ->
  (forall a g g', reachable g -> Q g -> step a g = Some g' -> Q g') ->
  forall g, reachable g -> Q g.
Proof.
  intros Hinit Hstep g (w & tr & Hrun).
  assert (Hgen : forall tr g0 g1,
             reachable g0 -> Q g0 -> run tr g0 = Some g1 -> Q g1).
  { clear tr Hrun. induction tr as [|a tr IH]; intros g0 g1 Hr HQ Hrun;
      cbn in Hrun.
    - injection Hrun as <-. exact HQ.
    - destruct (step a g0) as [g2|] eqn:Ha; [|discriminate].
      apply (IH g2 g1); [| |exact Hrun].
      + apply (reachable_run P [a] g0 g2 Hr). cbn. rewrite Ha. reflexivity.
      + exact (Hstep a g0 g2 Hr HQ Ha). }
  apply (Hgen tr (init P w) g); [|apply Hinit|exact Hrun].
  exists w, []. reflexivity.
Qed.

(** The flag is never left set behind: when it is set, a job is on its way. *)
Lemma flag_set_job_in_progress (g : Global P) :
  reachable g ->
  g_validationInProgress g = true ->
  starting (ui g) = true
  \/ exists i pc, workers g !! i = Some pc /\ processing pc = true.
Proof.
  intros Hreach. revert g Hreach.
  apply (reachable_induction
           (fun g => g_validationInProgress g = true ->
                     starting (ui g) = true
                     \/ exists i pc, workers g !! i = Some pc
                                     /\ processing pc = true)).
  - intros w. cbn. discriminate.
  - intros a g g' Hreach IH Hstep.
    pose proof (reachable_Inv P g Hreach) as HI.
    assert (Hkeep : forall i pc pc',
               workers g !! i = Some pc -> processing pc' = true ->
               exists j pj, <[i := pc']> (workers g) !! j = Some pj
                            /\ processing pj = true).
    { intros i pc pc' Hi Hp. exists i, pc'. split; [|exact Hp].
      apply list_lookup_insert_eq. exact (lookup_lt_Some _ _ _ Hi). }
    destruct a as [|filePath language|i]; cbn [step] in Hstep.
    + destruct (ui g) eqn:Hui; try discriminate. injection Hstep as <-.
      cbn. intros Hf. destruct (IH Hf) as [H|H]; [discriminate | right; exact H].
    + destruct (ui g) eqn:Hui; try discriminate.
      * destruct (g_mutex g); try discriminate. injection Hstep as <-.
        cbn. intros Hf. destruct (IH Hf) as [H|H]; [discriminate | right; exact H].
      * destruct (g_validationInProgress g) eqn:Hflag; injection Hstep as <-;
          cbn.
        -- intros _. destruct (IH eq_refl) as [H|H]; [discriminate | right; exact H].
        -- intros _. left. reflexivity.
      * injection Hstep as <-. cbn. intros Hf.
        destruct (IH Hf) as [H|H]; [discriminate | right; exact H].
      * injection Hstep as <-. cbn. intros _. left. reflexivity.
      * injection Hstep as <-. cbn. intros _. right.
        exists (length (workers g)), (WStart filePath language).
        split; [|reflexivity]. apply list_lookup_middle. reflexivity.
    + destruct (workers g !! i) as [pc|] eqn:Hi; [|discriminate].
      destruct pc as [filePath language| |result| | | |]; try discriminate.
      * destruct (validation_result P filePath language (sys g))
          as [[m|e|] s']; [|discriminate|]; injection Hstep as <-; cbn;
          intros _; right.
        -- exact (Hkeep i _ (WResult m) Hi eq_refl).
        -- exact (Hkeep i _ WHung Hi eq_refl).
      * destruct (pumping (ui g)); [|discriminate]. injection Hstep as <-.
        cbn. intros _. right. exact (Hkeep i _ WSent Hi eq_refl).
      * destruct (g_mutex g); [discriminate|]. injection Hstep as <-.
        cbn. intros _. right. exact (Hkeep i _ WLocked Hi eq_refl).
      * injection Hstep as <-. cbn. discriminate.
      * injection Hstep as <-. cbn. intros Hf.
        rewrite (inv_cleared g HI i Hi) in Hf. discriminate.
Qed.

(** X13: the flag tells the truth: in every reachable state it is set
    exactly when a job is on its way, that is when the window thread has
    set it and is about to start the thread, or a validation thread has not
    yet cleared it. *)
Theorem flag_set_iff_job_in_progress (g : Global P) :
  reachable g ->
  (g_validationInProgress g = true
   <-> starting (ui g) = true
       \/ exists i pc, workers g !! i = Some pc /\ processing pc = true).
Proof.
  intros Hreach. pose proof (reachable_Inv P g Hreach) as HI. split.
  - exact (flag_set_job_in_progress g Hreach).
  - intros [Hs | (i & pc & Hi & Hp)].
    + exact (proj1 (inv_starting g HI Hs)).
    + exact (inv_flag g HI i pc Hi Hp).
Qed.

(** X14: a submission is never refused for good: whenever the window thread
    is in its message loop and every validation thread has finished, the
    next press of the button goes through the guard, sets the flag and
    starts one thread for the texts that the controls hold when the thread
    is created. *)
Theorem idle_submission_is_accepted
    (g : Global P) (f1 l1 f2 l2 f3 l3 filePath language : string) :
  reachable g ->
  ui g = UiIdle ->
  (forall i pc, workers g !! i = Some pc -> finished pc = true) ->
  run [Validate; Ui f1 l1; Ui f2 l2; Ui f3 l3; Ui filePath language] g
  = Some {| g_mutex := None; g_validationInProgress := true; ui := UiIdle;
            workers := workers g ++ [WStart filePath language];
            sys := sys g; shown := shown g |}.
Proof.
  intros Hreach Hui Hall. pose proof (reachable_Inv P g Hreach) as HI.
  assert (Hflag : g_validationInProgress g = false).
  { destruct (g_validationInProgress g) eqn:Hf; [|reflexivity].
    destruct (flag_set_job_in_progress g Hreach Hf) as [Hs | (i & pc & Hi & Hp)].
    - rewrite Hui in Hs. discriminate.
    - apply Hall in Hi. destruct pc; discriminate. }
  assert (Hm : g_mutex g = None).
  { destruct (g_mutex g) as [[|j]|] eqn:Hm; [| |reflexivity].
    - apply (inv_ui_lock g HI) in Hm. rewrite Hui in Hm. discriminate.
    - apply (inv_worker_lock g HI) in Hm. destruct Hm as (pj & Hj & Hh).
      apply Hall in Hj. destruct pj; discriminate. }
  destruct g as [m f u ws sy sh]. cbn in *. subst m f u. reflexivity.
Qed.

Lemma in_order_keep
    (g : Global P) (i : nat) (pc pc' : worker_pc)
    (m : option thread) (b : bool) (sy : Sys P) :
  in_order g -> workers g !! i = Some pc ->
  delivered_by pc' = delivered_by pc ->
  in_order {| g_mutex := m; g_validationInProgress := b; ui := ui g;
              workers := <[i := pc']> (workers g); sys := sy;
              shown := shown g |}.
Proof.
  intros (Hmap & Hlen & Hd) Hi Hsame. unfold in_order. cbn.
  split; [exact Hmap | split].
  - rewrite length_insert. exact Hlen.
  - intros j pj Hj. apply list_lookup_insert_Some in Hj.
    destruct Hj as [(-> & <- & _) | (_ & Hj)].
    + rewrite Hsame. exact (Hd j pc Hi).
    + exact (Hd j pj Hj).
Qed.

Lemma in_order_step (a : action) (g g' : Global P) :
  reachable g -> in_order g -> step a g = Some g' -> in_order g'.
Proof.
  intros Hreach HQ Hstep. pose proof (reachable_Inv P g Hreach) as HI.
  destruct a as [|filePath language|i]; cbn [step] in Hstep.
  - destruct (ui g); try discriminate. injection Hstep as <-. exact HQ.
  - destruct (ui g) eqn:Hui; try discriminate.
    + destruct (g_mutex g); try discriminate. injection Hstep as <-. exact HQ.
    + destruct (g_validationInProgress g); injection Hstep as <-; exact HQ.
    + injection Hstep as <-. exact HQ.
    + injection Hstep as <-. exact HQ.
    + injection Hstep as <-. destruct HQ as (Hmap & Hlen & Hd).
      unfold in_order. cbn. split; [exact Hmap | split].
      * rewrite length_app. cbn. lia.
      * intros j pj Hj. apply lookup_snoc_Some in Hj.
        destruct Hj as [(_ & Hj) | (-> & <-)]; [exact (Hd j pj Hj)|].
        cbn. split; [discriminate | lia].
  - destruct (workers g !! i) as [pc|] eqn:Hi; [|discriminate].
    destruct pc as [filePath language| |result| | | |]; try discriminate.
    + destruct (validation_result P filePath language (sys g))
        as [[m|e|] s']; [|discriminate|]; injection Hstep as <-.
      * exact (in_order_keep g i _ (WResult m) _ _ _ HQ Hi eq_refl).
      * exact (in_order_keep g i _ WHung _ _ _ HQ Hi eq_refl).
    + destruct (pumping (ui g)); [|discriminate]. injection Hstep as <-.
      destruct HQ as (Hmap & Hlen & Hd).
      pose proof (lookup_lt_Some _ _ _ Hi) as Hilen.
      assert (Hn : i = length (shown g)).
      { pose proof (Hd i _ Hi) as Hdi. cbn in Hdi.
        destruct (decide (i < length (shown g))) as [Hlt|Hge].
        - apply Hdi in Hlt. discriminate.
        - destruct (decide (length (shown g) < i)) as [Hgt|]; [|lia].
          destruct (lookup_lt_is_Some_2 (workers g) (length (shown g)))
            as [pk Hk]; [lia|].
          assert (Hne : length (shown g) <> i) by lia.
          rewrite (others_done P g i _ HI Hi eq_refl _ pk Hne Hk) in Hk.
          apply Hd in Hk. cbn in Hk. destruct Hk as [Hk _].
          specialize (Hk eq_refl). lia. }
      unfold in_order. cbn. rewrite map_app, !length_app, Hmap. cbn.
      split; [|split].
      * rewrite Nat.add_1_r, seq_S. cbn. rewrite <- Hn. reflexivity.
      * rewrite length_insert. lia.
      * intros j pj Hj. apply list_lookup_insert_Some in Hj.
        destruct Hj as [(-> & <- & _) | (Hne & Hj)].
        -- cbn. split; [lia | reflexivity].
        -- rewrite (Hd j pj Hj). lia.
    + destruct (g_mutex g); [discriminate|]. injection Hstep as <-.
      exact (in_order_keep g i _ WLocked _ _ _ HQ Hi eq_refl).
    + injection Hstep as <-.
      exact (in_order_keep g i _ WCleared _ _ _ HQ Hi eq_refl).
    + injection Hstep as <-.
      exact (in_order_keep g i _ WDone _ _ _ HQ Hi eq_refl).
Qed.

(** X15: outcomes reach the window in the order in which the jobs were
    accepted, one for each job and none skipped: in every reachable state
    the jobs whose outcomes have been shown are jobs 0, 1, 2, ... in that
    order. *)
Theorem outcomes_shown_in_order (g : Global P) :
  reachable g -> map fst (shown g) = seq 0 (length (shown g)).
Proof.
  intros Hreach.
  assert (H : in_order g).
  { revert g Hreach. apply (reachable_induction in_order).
    - intros w. unfold in_order. cbn. split; [reflexivity | split; [lia|]].
      intros i pc [=].
    - exact in_order_step. }
  exact (proj1 H).
Qed.

End MoreJobProperties.

Lemma first_accepted_reachable : reachable first_accepted.
Proof. exists tt, accept_first. reflexivity. Qed.



Lemma flag_set_iff_job_in_progress_witness :
  run accept_first (init demo tt) = Some first_accepted
  /\ (g_validationInProgress first_accepted = true
      <-> starting (ui first_accepted) = true
          \/ exists i pc, workers first_accepted !! i = Some pc
                          /\ processing pc = true).
Proof.
  split; [reflexivity|].
  exact (flag_set_iff_job_in_progress demo first_accepted
           first_accepted_reachable).
Defined.

Lemma idle_submission_is_accepted_witness :
  run accept_first (init demo tt) = Some first_accepted.
Proof.
  apply (idle_submission_is_accepted demo (init demo tt)
           EmptyString EmptyString EmptyString EmptyString
           EmptyString EmptyString "x.py" "Python").
  - exists tt, []. reflexivity.
  - reflexivity.
  - intros i pc H. discriminate H.
Defined.

Lemma first_done_run :
  run (accept_first ++ [Wk 0; Wk 0; Wk 0; Wk 0; Wk 0]) (init demo tt)
  = Some first_done.
Proof. vm_compute. reflexivity. Qed.

Lemma outcomes_shown_in_order_witness :
  run (accept_first ++ [Wk 0; Wk 0; Wk 0; Wk 0; Wk 0]) (init demo tt)
  = Some first_done
  /\ map fst (shown first_done) = seq 0 (length (shown first_done)).
Proof.
  split; [exact first_done_run|].
  apply (outcomes_shown_in_order demo).
  exists tt, (accept_first ++ [Wk 0; Wk 0; Wk 0; Wk 0; Wk 0]).
  exact first_done_run.
Defined.

(** ** Browsing for a file *)





(** Outside ASCII the two copies of the name differ.  The name [a.p]
    followed by the letter U+0179 narrows to [a.py], so the box is set to
    Python; the path [validateCode] reads is the UTF-8 text, whose
    extension is not [.py], and the Python validator does not accept it. *)
Example browse_narrowing_differs :
  let fileName := L "a.p" ++ [377%N] in
  let P := scripted [WideCharToMultiByte fileName] accepting_tools in
  let c := {| g_hwndFilePath := []; g_hwndLanguageCombo := created_combo |} in
  let c' := browseForFile P (Some fileName) c in
  let filePath := fst (read_controls c') in
  let language := snd (read_controls c') in
  narrow fileName = "a.py"
  /\ language = "Python"
  /\ filePath <> "a.py"
  /\ isCompatible (PythonValidator P) filePath = false
  /\ fst (validation_result P filePath language (start_sys P tt))
     = Ok "Selected language doesn't match the file extension.".
Proof.
  intros fileName P c c' filePath language.
  split; [reflexivity | split; [reflexivity|]].
  split; [vm_compute; discriminate | split; [vm_compute; reflexivity|]].
  vm_compute. reflexivity.
Qed.
